(** * js-rev: the command-line front end and the segmentation core

    The first part embeds [src/index.ts] (class [JSReverseEngineer]):
    [getVersion], [getFileMetrics], [handleMetrics] and [handleAnalyze].
    JavaScript strings are sequences of UTF-16 code units, numbers that
    count bytes, lines and tokens are naturals of [N] (all of them stay far
    below 2^53, where the double arithmetic of the source is exact), an
    exception is a result of the call that raised it, and the console is the
    list of the lines written to it. *)

From Stdlib Require Import NArith ZArith QArith Bool List String Ascii Lia PrimFloat.
From stdpp Require Import base option list sorting gmap.
Import ListNotations.

#[local] Set Warnings "-register-all".
#[local] Open Scope N_scope.

(** ** JavaScript values used by the front end *)

Module Js.

(** A string is its sequence of UTF-16 code units. *)
Definition code_unit := N.
Definition js_string := list code_unit.

Definition of_string (s : string) : js_string :=
  List.map N_of_ascii (list_ascii_of_string s).

(** What a call yields: a value, or the exception it throws. *)
Inductive completion (A : Type) : Type :=
  | Normal (a : A)
  | Throw (message : js_string).
Arguments Normal {A} a.
Arguments Throw {A} message.

(** The values [JSON.parse] can produce. *)
Inductive value : Type :=
  | Null
  | Boolean (b : bool)
  | Number (x : float)
  | String (s : js_string)
  | Array (items : list value)
  | Object (props : list (js_string * value)).

(** ToBoolean on those values. *)
Definition truthy (v : value) : bool :=
  match v with
  | Null => false
  | Boolean b => b
  | Number x => negb (PrimFloat.eqb x 0%float) && PrimFloat.eqb x x
  | String s => negb (N.eqb (N.of_nat (List.length s)) 0)
  | Array _ => true
  | Object _ => true
  end.

Definition js_string_eqb (a b : js_string) : bool :=
  bool_decide (a = b).

(** The own property [key] of an object built by [JSON.parse]: on a repeated
    key the last occurrence wins. *)
Fixpoint own_property (key : js_string) (props : list (js_string * value))
  : option value :=
  match props with
  | [] => None
  | (k, v) :: rest =>
      match own_property key rest with
      | Some w => Some w
      | None => if js_string_eqb k key then Some v else None
      end
  end.

(** [v.version]: reading a property of [null] throws a TypeError; a
    primitive or an array has no such property ([undefined], written [None]);
    an object gives its own property. *)
Definition get_version_property (v : value) : completion (option value) :=
  match v with
  | Null => Throw (of_string "Cannot read properties of null")
  | Object props => Normal (own_property (of_string "version") props)
  | _ => Normal None
  end.

Definition is_string (v : value) : bool :=
  match v with String _ => true | _ => false end.

(** [Math.ceil(a / b)] on naturals. *)
Definition ceil_div (a b : N) : N :=
  if a mod b =? 0 then a / b else a / b + 1.

End Js.

Import Js.

(** ** The file system and the console, as the front end sees them *)

Module Cli.

(** The calls of [fs] and [JSON] the class makes.  [existsSync] and
    [readFileSync] are separate observations: a file may exist and still be
    unreadable.  [packagePath] stands for [join(__dirname, '..',
    'package.json')]. *)
Record Env : Type := {
  packagePath : js_string;
  existsSync : js_string -> bool;
  readFileSync : js_string -> completion js_string;
  JSON_parse : js_string -> completion value
}.

(** interface AnalysisOptions *)
Inductive Provider := claude | openai | local.
Inductive Focus := security | general | performance.
Inductive Format := markdown | json | html.

Record AnalysisOptions : Type := {
  file : js_string;
  output : option js_string;
  provider : option Provider;
  focus : option Focus;
  format : option Format;
  verbose : option bool;
  maxTokens : option N;
  filterLibraries : option bool
}.

(** interface FileMetrics *)
Record FileMetrics : Type := {
  size : N;
  lines : N;
  functions : N;
  estimatedTokens : N
}.

(** *** getVersion *)

Definition fallbackVersion : value := String (of_string "0.1.0").

(** The body of the [try] block: [None] when control leaves the [if]
    without returning. *)
Definition getVersion_try (env : Env) : completion (option value) :=
  if existsSync env (packagePath env) then
    match readFileSync env (packagePath env) with
    | Throw e => Throw e
    | Normal text =>
        match JSON_parse env text with
        | Throw e => Throw e
        | Normal packageJson =>
            match get_version_property packageJson with
            | Throw e => Throw e
            | Normal (Some v) =>
                Normal (Some (if truthy v then v else fallbackVersion))
            | Normal None => Normal (Some fallbackVersion)
            end
        end
    end
  else Normal None.

Definition getVersion (env : Env) : value :=
  match getVersion_try env with
  | Normal (Some v) => v
  | Normal None => fallbackVersion
  | Throw _ => fallbackVersion
  end.

(** *** getFileMetrics *)

Definition is_high_surrogate (c : code_unit) : bool :=
  (0xD800 <=? c) && (c <=? 0xDBFF).
Definition is_low_surrogate (c : code_unit) : bool :=
  (0xDC00 <=? c) && (c <=? 0xDFFF).

(** [Buffer.byteLength(content, 'utf8')]: the length of the UTF-8 encoding;
    a surrogate pair is one four-byte character, a lone surrogate is encoded
    as U+FFFD. *)
Fixpoint byteLength (content : js_string) : N :=
  match content with
  | [] => 0
  | c :: rest =>
      if c <? 0x80 then 1 + byteLength rest
      else if c <? 0x800 then 2 + byteLength rest
      else if is_high_surrogate c then
        match rest with
        | d :: rest' =>
            if is_low_surrogate d then 4 + byteLength rest'
            else 3 + byteLength rest
        | [] => 3
        end
      else 3 + byteLength rest
  end.

(** [content.split('\n').length] *)
Fixpoint split_newline_length (content : js_string) : N :=
  match content with
  | [] => 1
  | c :: rest =>
      if c =? 10 then 1 + split_newline_length rest
      else split_newline_length rest
  end.

(** The character classes of the function-counting expression. *)
Definition is_space (c : code_unit) : bool :=
  ((9 <=? c) && (c <=? 13)) || (c =? 32) || (c =? 0xA0) || (c =? 0x1680)
  || ((0x2000 <=? c) && (c <=? 0x200A)) || (c =? 0x2028) || (c =? 0x2029)
  || (c =? 0x202F) || (c =? 0x205F) || (c =? 0x3000) || (c =? 0xFEFF).

Definition is_word (c : code_unit) : bool :=
  ((48 <=? c) && (c <=? 57)) || ((65 <=? c) && (c <=? 90))
  || (c =? 95) || ((97 <=? c) && (c <=? 122)).

(** Matching at the head of the input; the result is what follows the
    match. *)
Fixpoint literal (lit s : js_string) : option js_string :=
  match lit, s with
  | [], _ => Some s
  | l :: lit', c :: s' => if l =? c then literal lit' s' else None
  | _ :: _, [] => None
  end.

Fixpoint skip_while (p : code_unit -> bool) (s : js_string) : js_string :=
  match s with
  | c :: s' => if p c then skip_while p s' else s
  | [] => []
  end.

(** function\s*\( *)
Definition alt_function_paren (s : js_string) : option js_string :=
  match literal (of_string "function") s with
  | Some s1 => literal (of_string "(") (skip_while is_space s1)
  | None => None
  end.

(** =>\s*{ *)
Definition alt_arrow_brace (s : js_string) : option js_string :=
  match literal (of_string "=>") s with
  | Some s1 => literal (of_string "{") (skip_while is_space s1)
  | None => None
  end.

(** \w+\s*:\s*function *)
Definition alt_property_function (s : js_string) : option js_string :=
  match s with
  | c :: s' =>
      if is_word c then
        match literal (of_string ":") (skip_while is_space (skip_while is_word s')) with
        | Some s2 => literal (of_string "function") (skip_while is_space s2)
        | None => None
        end
      else None
  | [] => None
  end.

(** The three alternatives in their order. *)
Definition match_here (s : js_string) : option js_string :=
  match alt_function_paren s with
  | Some r => Some r
  | None =>
      match alt_arrow_brace s with
      | Some r => Some r
      | None => alt_property_function s
      end
  end.

(** [content.match(/.../g)]: the matches from left to right, each search
    resuming where the previous match ended.  [skip] counts the code units
    of the current match that are still to be passed over. *)
Fixpoint count_matches (skip : nat) (s : js_string) : N :=
  match s with
  | [] => 0
  | _ :: rest =>
      match skip with
      | S k => count_matches k rest
      | O =>
          match match_here s with
          | Some r => 1 + count_matches (List.length rest - List.length r) rest
          | None => count_matches O rest
          end
      end
  end.

Definition getFileMetrics (content : js_string) : FileMetrics :=
  let size := byteLength content in
  let lines := split_newline_length content in
  let functions := count_matches O content in
  let estimatedTokens := ceil_div size 4 in
  {| size := size; lines := lines; functions := functions;
     estimatedTokens := estimatedTokens |}.

(** *** The command handlers *)

(** One constructor per [console.*] call of the two handlers; a number that
    the source formats ([toFixed], [toLocaleString], template literal) is
    carried unformatted. *)
Inductive console_line : Type :=
  | log_starting
  | log_options (options : AnalysisOptions)
  | error_file_not_found (path : js_string)
  | log_file_metrics_title
  | log_size_MB (bytes : N)
  | log_lines (n : N)
  | log_estimated_functions (n : N)
  | log_estimated_tokens (n : N)
  | warn_large_file
  | log_engine_not_implemented
  | log_next_steps
  | error_analysis_failed (message : js_string)
  | log_metrics_title
  | log_rule
  | log_chunks_needed_200k (n : N)
  | error_metrics_failed (message : js_string).

(** What a handler leaves behind: the console, and the exit code when it
    ended the process with [process.exit]. *)
Record Run : Type := {
  console : list console_line;
  exited : option N
}.

Definition is_true (b : option bool) : bool :=
  match b with Some true => true | _ => false end.

Definition handleAnalyze (env : Env) (options : AnalysisOptions) : Run :=
  let started :=
    log_starting :: (if is_true (verbose options) then [log_options options] else []) in
  if negb (existsSync env (file options)) then
    {| console := started ++ [error_file_not_found (file options)];
       exited := Some 1 |}
  else
    match readFileSync env (file options) with
    | Throw message =>
        {| console := started ++ [error_analysis_failed message];
           exited := Some 1 |}
    | Normal fileContent =>
        let metrics := getFileMetrics fileContent in
        {| console :=
             started
             ++ [log_file_metrics_title;
                 log_size_MB (size metrics);
                 log_lines (lines metrics);
                 log_estimated_tokens (estimatedTokens metrics)]
             ++ (if 50 * 1024 * 1024 <? size metrics then [warn_large_file] else [])
             ++ [log_engine_not_implemented; log_next_steps];
           exited := None |}
    end.

Definition handleMetrics (env : Env) (file : js_string) : Run :=
  if negb (existsSync env file) then
    {| console := [error_file_not_found file]; exited := Some 1 |}
  else
    match readFileSync env file with
    | Throw message =>
        {| console := [error_metrics_failed message]; exited := Some 1 |}
    | Normal fileContent =>
        let metrics := getFileMetrics fileContent in
        {| console :=
             [log_metrics_title;
              log_rule;
              log_size_MB (size metrics);
              log_lines (lines metrics);
              log_estimated_functions (functions metrics);
              log_estimated_tokens (estimatedTokens metrics);
              log_chunks_needed_200k (ceil_div (estimatedTokens metrics) 200000)];
           exited := None |}
    end.

(** The numbers a run printed as its estimated tokens, its chunks needed and
    its lines. *)
Definition reported_tokens (r : Run) : list N :=
  omap (fun l => match l with log_estimated_tokens n => Some n | _ => None end)
       (console r).

Definition reported_chunks (r : Run) : list N :=
  omap (fun l => match l with log_chunks_needed_200k n => Some n | _ => None end)
       (console r).

Definition reported_lines (r : Run) : list N :=
  omap (fun l => match l with log_lines n => Some n | _ => None end)
       (console r).

End Cli.

(** * The segmentation and analysis core

    [src/index.ts] stops at "Analysis engine not yet implemented": of the
    core the repository holds the type declarations only.  The enumerations
    and records below that name a TypeScript declaration are taken from it;
    every function of this module is modelled from the specification of the
    component it belongs to, and says so. *)

Module Core.

#[local] Open Scope nat_scope.

(** ** Declarations of the repository *)

(** type ChunkType *)
Inductive ChunkType : Type :=
  | type_function
  | type_class
  | type_module
  | type_global
  | type_event_handler
  | type_library
  | type_utility
  | type_security_relevant
  | type_unknown.

(** The severities of SecurityPattern and SecurityFinding. *)
Inductive Severity : Type := low | medium | high | critical.

(** type SecurityCategory *)
Inductive SecurityCategory : Type :=
  | xss | injection | csrf | data_exposure | eval_usage | dom_manipulation
  | network_security | privacy | crypto | authentication | authorization
  | general.

(** interface ChunkingStrategy *)
Record ChunkingStrategy : Type := {
  maxTokens : nat;
  overlapTokens : nat;
  preserveFunctions : bool;
  preserveScopes : bool;
  prioritizeImportant : bool
}.

#[global] Instance ChunkType_eq_dec : EqDecision ChunkType.
Proof. solve_decision. Defined.
#[global] Instance Severity_eq_dec : EqDecision Severity.
Proof. solve_decision. Defined.
#[global] Instance SecurityCategory_eq_dec : EqDecision SecurityCategory.
Proof. solve_decision. Defined.

(** ** Data model *)

Definition byte := ascii.
Definition range := (nat * nat)%type.

(** Modelled from the spec: SourceBuffer, the bytes and the sorted list of
    the byte offsets at which a line starts. *)
Record SourceBuffer : Type := {
  bytes : list byte;
  lineStarts : list nat
}.

Definition newline : byte := "010"%char.

Fixpoint line_starts_from (off : nat) (s : list byte) : list nat :=
  match s with
  | [] => []
  | c :: rest =>
      if Ascii.eqb c newline then S off :: line_starts_from (S off) rest
      else line_starts_from (S off) rest
  end.

(** Modelled from the spec: loading a buffer builds its line index. *)
Definition load (s : list byte) : SourceBuffer :=
  {| bytes := s; lineStarts := 0 :: line_starts_from 0 s |}.

Definition len (buffer : SourceBuffer) : nat := length (bytes buffer).

(** Modelled from the spec: offset to line, the number of line starts at or
    before the offset. *)
Definition lineOf (buffer : SourceBuffer) (offset : nat) : nat :=
  length (filter (fun start => start <= offset) (lineStarts buffer)).

Definition slice (buffer : SourceBuffer) (r : range) : list byte :=
  take (snd r - fst r) (drop (fst r) (bytes buffer)).

(** Modelled from the spec: BoundaryMark. *)
Inductive MarkKind : Type := safe_split | unsafe.

Record BoundaryMark : Type := {
  offset : nat;
  kind : MarkKind
}.

#[global] Instance MarkKind_eq_dec : EqDecision MarkKind.
Proof. solve_decision. Defined.

(** Modelled from the spec: LibraryMatch. *)
Record LibraryMatch : Type := {
  libraryName : string;
  libraryVersion : option string;
  matchConfidence : Q;
  matchRange : range;
  shouldFilter : bool
}.

(** Modelled from the spec: a chunk id is a stable hash of the byte range;
    the hash is taken injective and stands as the range itself. *)
Definition ChunkId := range.

(** Modelled from the spec: Chunk.  [byteRange] is the primary range;
    [overlapStart] is where the context handed to the analyzer begins, so
    the bytes of [overlapStart, fst byteRange) are the tagged overlap. *)
Record Chunk : Type := {
  id : ChunkId;
  byteRange : range;
  overlapStart : nat;
  estimatedTokens : nat;
  type : ChunkType;
  importance : Q;
  dependencies : list ChunkId
}.

Definition chunkStart (c : Chunk) : nat := fst (byteRange c).
Definition chunkEnd (c : Chunk) : nat := snd (byteRange c).

(** Modelled from the spec: Finding; [location] is a byte offset, relative
    to the analyzed text until the Merger makes it absolute. *)
Record Finding : Type := {
  category : SecurityCategory;
  severity : Severity;
  confidence : Q;
  location : nat;
  line : nat;
  description : string;
  recommendation : option string
}.

(** Modelled from the spec: the two classes of analyzer failure. *)
Inductive TransientKind : Type := timeout | rate_limit | server_error.
Inductive PermanentKind : Type := malformed_input_rejected | auth_failure.

Inductive AnalyzerError : Type :=
  | transient (k : TransientKind)
  | permanent (k : PermanentKind).

(** Modelled from the spec: AnalysisOutcome. *)
Record AnalysisOutcome : Type := {
  chunkId : ChunkId;
  findings : list Finding;
  succeeded : bool;
  attempts : nat;
  errorKind : option AnalyzerError
}.

(** Modelled from the spec: the error kinds of the core. *)
Inductive ErrorKind : Type :=
  | MalformedInputBoundary
  | OversizedUnsplittableChunk
  | AnalyzerTransientFailure
  | AnalyzerPermanentFailure
  | BudgetExceeded
  | ConfigurationInvalid
  | BufferLoadFailed.

(** ** Lexical Boundary Scanner *)

(** Modelled from the spec: the absent scanner.  The bytes the scanner
    tells apart. *)
Inductive Token : Type :=
  | t_open_brace | t_close_brace | t_open_paren | t_close_paren
  | t_open_bracket | t_close_bracket | t_semicolon
  | t_single_quote | t_double_quote | t_backtick | t_backslash
  | t_dollar | t_slash | t_star | t_newline | t_other.

Definition classify (c : byte) : Token :=
  match c with
  | "{"%char => t_open_brace
  | "}"%char => t_close_brace
  | "("%char => t_open_paren
  | ")"%char => t_close_paren
  | "["%char => t_open_bracket
  | "]"%char => t_close_bracket
  | ";"%char => t_semicolon
  | "'"%char => t_single_quote
  | "034"%char => t_double_quote
  | "`"%char => t_backtick
  | "\"%char => t_backslash
  | "$"%char => t_dollar
  | "/"%char => t_slash
  | "*"%char => t_star
  | "010"%char => t_newline
  | "013"%char => t_newline
  | _ => t_other
  end.

(** Modelled from the spec: what the scanner is inside of.  [code_slash] is
    code right after a slash, which a second slash or a star turns into a
    comment; the flag of a string says that the previous byte was an
    unescaped backslash, the second flag of a template that it was an
    unescaped dollar, the flag of a block comment that it was a star. *)
Inductive Mode : Type :=
  | code
  | code_slash
  | single_quoted (escaped : bool)
  | double_quoted (escaped : bool)
  | template (escaped dollar : bool)
  | line_comment
  | block_comment (star : bool).

(** Modelled from the spec: the open brackets, innermost first;
    [template_hole] is the inside of a dollar-brace expression of a
    template literal. *)
Inductive Frame : Type := brace | paren | bracket | template_hole.

(** Modelled from the spec: the scanner state.  [broken] is set by a
    closing bracket that closes nothing; from then on no safe split is
    marked. *)
Record ScanState : Type := {
  mode : Mode;
  stack : list Frame;
  broken : bool
}.

Definition initial : ScanState :=
  {| mode := code; stack := []; broken := false |}.

Definition in_code (m : Mode) : bool :=
  match m with code | code_slash => true | _ => false end.

(** Modelled from the spec: a state is at top level when it is in code,
    outside every bracket, and nothing was found broken. *)
Definition top_level (st : ScanState) : bool :=
  in_code (mode st) && bool_decide (stack st = []) && negb (broken st).

Definition enter (m : Mode) (st : ScanState) : ScanState :=
  {| mode := m; stack := stack st; broken := broken st |}.

Definition push (f : Frame) (st : ScanState) : ScanState :=
  {| mode := code; stack := f :: stack st; broken := broken st |}.

Definition break (st : ScanState) : ScanState :=
  {| mode := code; stack := stack st; broken := true |}.

#[global] Instance Frame_eq_dec : EqDecision Frame.
Proof. solve_decision. Defined.

(** Modelled from the spec: a closing bracket pops the frame it matches; a
    closing brace that ends a template hole goes back into the template. *)
Definition close (f : Frame) (st : ScanState) : ScanState :=
  match stack st with
  | top :: below =>
      if bool_decide (top = f) then
        {| mode := code; stack := below; broken := broken st |}
      else if bool_decide (top = template_hole) && bool_decide (f = brace) then
        {| mode := template false false; stack := below; broken := broken st |}
      else break st
  | [] => break st
  end.

(** Modelled from the spec: one byte in code. *)
Definition step_code (t : Token) (st : ScanState) : ScanState :=
  match t with
  | t_open_brace => push brace st
  | t_open_paren => push paren st
  | t_open_bracket => push bracket st
  | t_close_brace => close brace st
  | t_close_paren => close paren st
  | t_close_bracket => close bracket st
  | t_single_quote => enter (single_quoted false) st
  | t_double_quote => enter (double_quoted false) st
  | t_backtick => enter (template false false) st
  | t_slash => enter code_slash st
  | _ => enter code st
  end.

(** Modelled from the spec: one byte of the input, in any mode. *)
Definition step (st : ScanState) (c : byte) : ScanState :=
  let t := classify c in
  match mode st with
  | code => step_code t st
  | code_slash =>
      match t with
      | t_slash => enter line_comment st
      | t_star => enter (block_comment false) st
      | _ => step_code t st
      end
  | single_quoted true => enter (single_quoted false) st
  | single_quoted false =>
      match t with
      | t_backslash => enter (single_quoted true) st
      | t_single_quote => enter code st
      | _ => st
      end
  | double_quoted true => enter (double_quoted false) st
  | double_quoted false =>
      match t with
      | t_backslash => enter (double_quoted true) st
      | t_double_quote => enter code st
      | _ => st
      end
  | template true _ => enter (template false false) st
  | template false dollar =>
      match t with
      | t_backslash => enter (template true false) st
      | t_backtick => enter code st
      | t_dollar => enter (template false true) st
      | t_open_brace =>
          if dollar then push template_hole st
          else enter (template false false) st
      | _ => enter (template false false) st
      end
  | line_comment =>
      match t with
      | t_newline => enter code st
      | _ => st
      end
  | block_comment star =>
      match t with
      | t_slash => if star then enter code st else enter (block_comment false) st
      | t_star => enter (block_comment true) st
      | _ => enter (block_comment false) st
      end
  end.

(** Modelled from the spec: the mark, if any, at the offset that follows a
    byte.  A statement or a block that ends at top level gives a safe
    split; the first offset inside a string, template or comment is marked
    unsafe. *)
Definition mark_after (before : ScanState) (c : byte) (after : ScanState)
  : option MarkKind :=
  if in_code (mode before) then
    if in_code (mode after) then
      match classify c with
      | t_semicolon | t_close_brace =>
          if top_level after then Some safe_split else None
      | _ => None
      end
    else Some unsafe
  else None.

(** Modelled from the spec: the scan proper, restartable from any state and
    offset; one pass, at most one mark per byte. *)
Fixpoint scan_from (st : ScanState) (off : nat) (s : list byte)
  : list BoundaryMark * ScanState :=
  match s with
  | [] => ([], st)
  | c :: rest =>
      let st' := step st c in
      let '(marks, final) := scan_from st' (S off) rest in
      (match mark_after st c st' with
       | Some k => {| offset := S off; kind := k |} :: marks
       | None => marks
       end, final)
  end.

(** Modelled from the spec: the input is well terminated when it ends in
    code or in a line comment, every bracket closed and nothing broken. *)
Definition well_terminated (st : ScanState) : bool :=
  match mode st with
  | code | code_slash | line_comment =>
      bool_decide (stack st = []) && negb (broken st)
  | _ => false
  end.

(** Modelled from the spec: what the scanner hands on, the marks and the
    note it records when the input is malformed: it ends inside a string, a
    template, a block comment or an open bracket, or a bracket was closed
    that was not open. *)
Record ScanResult : Type := {
  marks : list BoundaryMark;
  note : option ErrorKind
}.

Definition scan (buffer : SourceBuffer) : ScanResult :=
  let '(ms, final) := scan_from initial 0 (bytes buffer) in
  {| marks := ms;
     note := if well_terminated final then None
             else Some MalformedInputBoundary |}.

Definition safeOffsets (ms : list BoundaryMark) : list nat :=
  offset <$> filter (fun m => kind m = safe_split) ms.

(** ** Chunk Builder *)

Section Builder.

(** Modelled from the spec: the characters-to-tokens ratio of the estimate
    (4 unless configured otherwise). *)
Variable charsPerToken : nat.

(** Modelled from the spec: the estimated tokens of a run of bytes, its
    length over the ratio, rounded up. *)
Definition estimateTokens (length : nat) : nat :=
  if length mod charsPerToken =? 0 then length / charsPerToken
  else S (length / charsPerToken).

Variable strategy : ChunkingStrategy.

Definition fits (length : nat) : bool :=
  estimateTokens length <=? maxTokens strategy.

(** Modelled from the spec: the places where the builder may cut, the safe
    splits strictly inside the buffer in ascending order, then its end. *)
Fixpoint cutsFrom (prev total : nat) (offsets : list nat) : list nat :=
  match offsets with
  | [] => if prev <? total then [total] else []
  | o :: rest =>
      if (prev <? o) && (o <? total) then o :: cutsFrom o total rest
      else cutsFrom prev total rest
  end.

(** Modelled from the spec: a primary range and whether it is a single
    segment that alone exceeds [maxTokens]. *)
Record Segment : Type := {
  segRange : range;
  oversized : bool
}.

(** Modelled from the spec: the greedy walk.  The open chunk is
    [start, cur); the next segment ends at the cut [b].  While the chunk
    extended to [b] fits it is extended; otherwise it is closed at [cur],
    the last safe boundary before the limit, and the segment opens the next
    chunk.  A segment that exceeds the limit alone is emitted whole. *)
Fixpoint assemble (start cur : nat) (cuts : list nat) : list Segment :=
  match cuts with
  | [] =>
      if start <? cur then [{| segRange := (start, cur); oversized := false |}]
      else []
  | b :: rest =>
      if fits (b - start) then assemble start b rest
      else if start <? cur then
        {| segRange := (start, cur); oversized := false |}
        :: (if fits (b - cur) then assemble cur b rest
            else {| segRange := (cur, b); oversized := true |}
                 :: assemble b b rest)
      else {| segRange := (start, b); oversized := true |} :: assemble b b rest
  end.

(** Modelled from the spec: the overlap window of a chunk starts
    [overlapTokens] worth of bytes before its primary range, and never
    before the start of the previous chunk; the first chunk has none. *)
Definition overlapStartOf (previous : option Segment) (s : Segment) : nat :=
  match previous with
  | None => fst (segRange s)
  | Some p =>
      Nat.max (fst (segRange p))
              (fst (segRange s) - overlapTokens strategy * charsPerToken)
  end.

Fixpoint withOverlap (previous : option Segment) (segments : list Segment)
  : list (Segment * nat) :=
  match segments with
  | [] => []
  | s :: rest => (s, overlapStartOf previous s) :: withOverlap (Some s) rest
  end.

(** Modelled from the spec: identifier heuristics for the dependency
    edges.  A token is a maximal run of identifier bytes or one other byte
    that is not white space. *)
Definition is_identifier_byte (c : byte) : bool :=
  let n := nat_of_ascii c in
  ((48 <=? n) && (n <=? 57)) || ((65 <=? n) && (n <=? 90))
  || ((97 <=? n) && (n <=? 122)) || (n =? 95) || (n =? 36).

Definition is_blank (c : byte) : bool :=
  let n := nat_of_ascii c in
  (n =? 32) || ((9 <=? n) && (n <=? 13)).

Definition flush (word : list byte) (tokens : list (list byte))
  : list (list byte) :=
  match word with [] => tokens | _ => rev word :: tokens end.

Fixpoint tokens_of (word : list byte) (s : list byte) : list (list byte) :=
  match s with
  | [] => flush word []
  | c :: rest =>
      if is_identifier_byte c then tokens_of (c :: word) rest
      else if is_blank c then flush word (tokens_of [] rest)
      else flush word ([c] :: tokens_of [] rest)
  end.

Definition bytes_of (s : string) : list byte := list_ascii_of_string s.

Definition is_declarator (token : list byte) : bool :=
  bool_decide (token ∈ bytes_of <$> ["function"; "class"; "var"; "let"; "const"]%string).

Definition is_name (token : list byte) : bool :=
  match token with
  | c :: _ => is_identifier_byte c && negb (is_declarator token)
  | [] => false
  end.

(** Modelled from the spec: the identifiers a text declares or assigns, a
    name after a declaring keyword or before a single equals sign. *)
Fixpoint declared (tokens : list (list byte)) : list (list byte) :=
  match tokens with
  | [] => []
  | t :: rest =>
      match rest with
      | n :: after =>
          if is_declarator t && is_name n then n :: declared rest
          else if is_name t && bool_decide (n = bytes_of "=")
                  && negb (bool_decide (head after = Some (bytes_of "=")))
          then t :: declared rest
          else declared rest
      | [] => []
      end
  end.

Definition mentions (text : list byte) (names : list (list byte)) : bool :=
  existsb (fun token => bool_decide (token ∈ names)) (tokens_of [] text).

Variable buffer : SourceBuffer.
Variable libraryMatches : list LibraryMatch.

Definition within (inner outer : range) : bool :=
  (fst outer <=? fst inner) && (snd inner <=? snd outer).

(** Modelled from the spec: the type tag.  An oversized segment is flagged
    [function]; a chunk inside a filtered library match is [library]; the
    builder knows nothing more. *)
Definition typeOf (s : Segment) : ChunkType :=
  if oversized s then type_function
  else if existsb (fun m => shouldFilter m && within (segRange s) (matchRange m))
                  libraryMatches
  then type_library
  else type_unknown.

(** Modelled from the spec: the chunks whose declared identifiers this one
    mentions. *)
Definition dependenciesOf (all : list Segment) (s : Segment) : list ChunkId :=
  segRange <$>
    filter (fun other =>
              segRange other ≠ segRange s
              ∧ mentions (slice buffer (segRange s))
                         (declared (tokens_of [] (slice buffer (segRange other))))
                = true)
           all.

Definition chunkOf (all : list Segment) (d : Segment * nat) : Chunk :=
  let s := fst d in
  {| id := segRange s;
     byteRange := segRange s;
     overlapStart := snd d;
     estimatedTokens := estimateTokens (snd (segRange s) - fst (segRange s));
     type := typeOf s;
     importance := 0;
     dependencies := dependenciesOf all s |}.

(** Modelled from the spec: build(buffer, boundaries, libraryMatches,
    strategy).  With [preserveFunctions] unset the spec names no other
    treatment of a segment that exceeds the limit alone (the builder cuts
    at safe splits only), so it is emitted the same way. *)
Definition build (boundaries : list BoundaryMark) : list Chunk :=
  let segments :=
    assemble 0 0 (cutsFrom 0 (len buffer) (safeOffsets boundaries)) in
  chunkOf segments <$> withOverlap None segments.

End Builder.

(** ** Importance Scorer *)

(** interface SecurityPattern; the regular expression is taken as the
    number of matches it has in a text. *)
Record SecurityPattern : Type := {
  pattern : list byte -> nat;
  patternName : string;
  patternSeverity : Severity;
  patternDescription : string;
  patternCategory : SecurityCategory
}.

(** Modelled from the spec: the weights of the three signals of the score
    (focusWeights), and the confidence from which a library match counts. *)
Record ScoreConfig : Type := {
  densityWeight : Q;
  libraryPenalty : Q;
  dependencyBonus : Q;
  minConfidence : Q
}.

Definition clamp01 (q : Q) : Q :=
  if Qle_bool q 0 then 0%Q else if Qle_bool 1 q then 1%Q else q.

Definition Q_of_nat (n : nat) : Q := inject_Z (Z.of_nat n).

Definition overlaps (a b : range) : bool :=
  (fst a <? snd b) && (fst b <? snd a).

(** Modelled from the spec: score(chunk, buffer, libraryMatches,
    securityPatterns), the weighted sum of the pattern hits per byte, minus
    the penalty for lying on a filtered library match of enough confidence,
    plus the bonus for having dependency edges, kept within [0, 1]. *)
Definition score (cfg : ScoreConfig) (chunk : Chunk) (buffer : SourceBuffer)
    (libraryMatches : list LibraryMatch) (securityPatterns : list SecurityPattern)
  : Q :=
  let text := slice buffer (byteRange chunk) in
  let hits := sum_list_with (fun p => pattern p text) securityPatterns in
  let density :=
    match length text with
    | O => 0%Q
    | S _ => (Q_of_nat hits / Q_of_nat (length text))%Q
    end in
  let onLibrary :=
    existsb (fun m => shouldFilter m
                      && Qle_bool (minConfidence cfg) (matchConfidence m)
                      && overlaps (byteRange chunk) (matchRange m))
            libraryMatches in
  let connected := negb (bool_decide (dependencies chunk = [])) in
  clamp01 (densityWeight cfg * density
           - (if onLibrary then libraryPenalty cfg else 0)
           + (if connected then dependencyBonus cfg else 0))%Q.

Definition withImportance (q : Q) (c : Chunk) : Chunk :=
  {| id := id c; byteRange := byteRange c; overlapStart := overlapStart c;
     estimatedTokens := estimatedTokens c; type := type c;
     importance := q; dependencies := dependencies c |}.

(** Modelled from the spec: descending importance, the order of
    submission. *)
Definition moreImportant (c d : Chunk) : Prop :=
  Qle_bool (importance d) (importance c) = true.

#[global] Instance moreImportant_dec c d : Decision (moreImportant c d).
Proof. unfold moreImportant. apply _. Defined.

Definition prioritize (cfg : ScoreConfig) (buffer : SourceBuffer)
    (libraryMatches : list LibraryMatch) (securityPatterns : list SecurityPattern)
    (chunks : list Chunk) : list Chunk :=
  merge_sort moreImportant
    ((fun c => withImportance (score cfg c buffer libraryMatches securityPatterns) c)
       <$> chunks).

(** A pattern that counts the occurrences of a literal text. *)
Fixpoint starts_with (needle text : list byte) : bool :=
  match needle, text with
  | [], _ => true
  | n :: needle', t :: text' => Ascii.eqb n t && starts_with needle' text'
  | _ :: _, [] => false
  end.

Fixpoint occurrences (needle text : list byte) : nat :=
  match text with
  | [] => 0
  | _ :: rest =>
      (if starts_with needle text then 1 else 0) + occurrences needle rest
  end.

(** ** Analysis Orchestrator *)

(** Modelled from the spec: the configuration of a run. *)
Record OrchestratorConfig : Type := {
  concurrency : nat;
  maxTotalTokens : nat;
  retries : nat;
  backoff : nat
}.

(** Modelled from the spec: the analyzer capability.  A call is identified
    by the chunk and the number of the attempt; it gives the findings or an
    error that the adapter classified. *)
Definition Analyzer := Chunk -> nat -> list Finding + AnalyzerError.

(** Modelled from the spec: an analyzer call in flight, with the retries it
    has left. *)
Record Call : Type := {
  callChunk : Chunk;
  callAttempt : nat;
  callRetriesLeft : nat
}.

(** Modelled from the spec: the state of a run.  [queue] holds the chunks
    not yet decided, most important first; [spent] is the shared counter of
    the tokens committed; [skipped] and [dispatched] record each decision;
    [calls] counts the analyzer calls made and [delays] the backoff delays
    waited for. *)
Record Pool : Type := {
  queue : list Chunk;
  inflight : list Call;
  finished : list AnalysisOutcome;
  skipped : list (ChunkId * ErrorKind);
  dispatched : list ChunkId;
  spent : nat;
  calls : nat;
  delays : list nat;
  cancelled : bool
}.

Definition start (chunks : list Chunk) : Pool :=
  {| queue := chunks; inflight := []; finished := []; skipped := [];
     dispatched := []; spent := 0; calls := 0; delays := [];
     cancelled := false |}.

Definition succeededOutcome (c : Chunk) (fs : list Finding) (attempt : nat)
  : AnalysisOutcome :=
  {| chunkId := id c; findings := fs; succeeded := true;
     attempts := attempt; errorKind := None |}.

Definition failedOutcome (c : Chunk) (e : AnalyzerError) (attempt : nat)
  : AnalysisOutcome :=
  {| chunkId := id c; findings := []; succeeded := false;
     attempts := attempt; errorKind := Some e |}.

(** Modelled from the spec: what the response to a call leads to, the
    outcome, or the same call again after a transient failure while
    retries are left. *)
Definition conclude (analyze : Analyzer) (call : Call) : Call + AnalysisOutcome :=
  let c := callChunk call in
  match analyze c (callAttempt call) with
  | inl fs => inr (succeededOutcome c fs (callAttempt call))
  | inr (permanent k) => inr (failedOutcome c (permanent k) (callAttempt call))
  | inr (transient k) =>
      match callRetriesLeft call with
      | O => inr (failedOutcome c (transient k) (callAttempt call))
      | S fewer =>
          inl {| callChunk := c; callAttempt := S (callAttempt call);
                 callRetriesLeft := fewer |}
      end
  end.

(** Modelled from the spec: the outcome of a chunk, the private retry loop
    of its invocation run to its end. *)
Fixpoint attempt (analyze : Analyzer) (c : Chunk) (k retriesLeft : nat)
  : AnalysisOutcome :=
  match analyze c k with
  | inl fs => succeededOutcome c fs k
  | inr (permanent e) => failedOutcome c (permanent e) k
  | inr (transient e) =>
      match retriesLeft with
      | O => failedOutcome c (transient e) k
      | S fewer => attempt analyze c (S k) fewer
      end
  end.

Definition outcomeOf (cfg : OrchestratorConfig) (analyze : Analyzer) (c : Chunk)
  : AnalysisOutcome :=
  attempt analyze c 1 (retries cfg).

(** Modelled from the spec: what can happen next in a run. *)
Inductive Event : Type :=
  | dispatch
  | skip
  | complete (slot : nat)
  | cancel.

Section Run.

Variable cfg : OrchestratorConfig.
Variable analyze : Analyzer.

Definition overBudget (p : Pool) (c : Chunk) : bool :=
  maxTotalTokens cfg <? spent p + estimatedTokens c.

(** Modelled from the spec: one step of a run; [None] when the event is not
    enabled.  The budget check and the commit of [dispatch] are one step.
    A chunk that would take the spend over the budget is skipped, and the
    skip is recorded; nothing is dispatched once the run is cancelled. *)
Definition step_pool (p : Pool) (e : Event) : option Pool :=
  match e with
  | dispatch =>
      match queue p with
      | c :: rest =>
          if negb (cancelled p) && (length (inflight p) <? concurrency cfg)
             && negb (overBudget p c)
          then Some {| queue := rest;
                       inflight := inflight p
                                   ++ [{| callChunk := c; callAttempt := 1;
                                          callRetriesLeft := retries cfg |}];
                       finished := finished p; skipped := skipped p;
                       dispatched := dispatched p ++ [id c];
                       spent := spent p + estimatedTokens c;
                       calls := calls p; delays := delays p;
                       cancelled := cancelled p |}
          else None
      | [] => None
      end
  | skip =>
      match queue p with
      | c :: rest =>
          if negb (cancelled p) && overBudget p c
          then Some {| queue := rest; inflight := inflight p;
                       finished := finished p;
                       skipped := skipped p ++ [(id c, BudgetExceeded)];
                       dispatched := dispatched p; spent := spent p;
                       calls := calls p; delays := delays p;
                       cancelled := cancelled p |}
          else None
      | [] => None
      end
  | complete slot =>
      match inflight p !! slot with
      | Some call =>
          match conclude analyze call with
          | inl again =>
              Some {| queue := queue p;
                      inflight := <[slot := again]> (inflight p);
                      finished := finished p; skipped := skipped p;
                      dispatched := dispatched p; spent := spent p;
                      calls := S (calls p);
                      delays := delays p
                                ++ [backoff cfg * 2 ^ (callAttempt call - 1)];
                      cancelled := cancelled p |}
          | inr outcome =>
              Some {| queue := queue p;
                      inflight := delete slot (inflight p);
                      finished := finished p ++ [outcome];
                      skipped := skipped p;
                      dispatched := dispatched p; spent := spent p;
                      calls := S (calls p); delays := delays p;
                      cancelled := cancelled p |}
          end
      | None => None
      end
  | cancel =>
      if cancelled p then None
      else Some {| queue := queue p; inflight := inflight p;
                   finished := finished p; skipped := skipped p;
                   dispatched := dispatched p; spent := spent p;
                   calls := calls p; delays := delays p;
                   cancelled := true |}
  end.

(** A schedule is the sequence of events of a run. *)
Fixpoint exec (p : Pool) (schedule : list Event) : option Pool :=
  match schedule with
  | [] => Some p
  | e :: rest =>
      match step_pool p e with
      | Some p' => exec p' rest
      | None => None
      end
  end.

(** Modelled from the spec: a run is over when no call is in flight and
    nothing is left to decide, or the run is cancelled. *)
Definition over (p : Pool) : bool :=
  bool_decide (inflight p = [])
  && (bool_decide (queue p = []) || cancelled p).

(** Modelled from the spec: the schedule of an uncancelled run that keeps
    the pool full: decide the head of the queue whenever that is possible,
    otherwise take the response of the oldest call. *)
Definition next (p : Pool) : option Event :=
  match queue p with
  | c :: _ =>
      if overBudget p c then Some skip
      else if length (inflight p) <? concurrency cfg then Some dispatch
      else match inflight p with
           | _ :: _ => Some (complete 0)
           | [] => None
           end
  | [] =>
      match inflight p with
      | _ :: _ => Some (complete 0)
      | [] => None
      end
  end.

Fixpoint drive (fuel : nat) (p : Pool) : Pool :=
  match fuel with
  | O => p
  | S fuel' =>
      match next p with
      | Some e =>
          match step_pool p e with
          | Some p' => drive fuel' p'
          | None => p
          end
      | None => p
      end
  end.

(** The number of steps a run can still take is at most this. *)
Definition remaining (p : Pool) : nat :=
  length (queue p) * (retries cfg + 2)
  + sum_list_with (fun call => S (callRetriesLeft call)) (inflight p)
  + (if cancelled p then 0 else 1).

(** Modelled from the spec: run(chunks, analyze, config); the outcomes are
    [finished] of the pool it returns. *)
Definition run (chunks : list Chunk) : Pool :=
  drive (remaining (start chunks)) (start chunks).

End Run.

(** ** Result Merger *)

(** interface AnalysisSummary *)
Record AnalysisSummary : Type := {
  totalSecurityIssues : nat;
  criticalIssues : nat;
  highIssues : nat;
  mediumIssues : nat;
  lowIssues : nat;
  librariesCount : nat;
  codeReduction : Q;
  processingTime : nat;
  tokensUsed : nat
}.

(** interface AnalysisResult, without the file name; of the metrics the
    size and the lines of the buffer. *)
Record AnalysisResult : Type := {
  metricsSize : nat;
  metricsLines : nat;
  securityFindings : list Finding;
  librariesDetected : list LibraryMatch;
  chunks : list Chunk;
  summary : AnalysisSummary;
  timestamp : nat
}.

(** Modelled from the spec: the wall clock as the Merger reads it, the
    time the run started and the time of the merge, in milliseconds. *)
Record Clock : Type := {
  startedAt : nat;
  now : nat
}.

(** Modelled from the spec: when two findings count as the same, how many
    bytes their locations may differ and when two descriptions are
    similar. *)
Record MergeConfig : Type := {
  dedupWindow : nat;
  similar : string -> string -> bool
}.

Definition rank (s : Severity) : nat :=
  match s with low => 0 | medium => 1 | high => 2 | critical => 3 end.

(** Modelled from the spec: the order of the findings of a report, by
    severity descending, then by absolute location ascending. *)
Definition findingBefore (f g : Finding) : Prop :=
  rank (severity g) < rank (severity f)
  ∨ (rank (severity f) = rank (severity g) ∧ location f <= location g).

#[global] Instance findingBefore_dec f g : Decision (findingBefore f g).
Proof. unfold findingBefore. apply _. Defined.

Section Merge.

Variable cfg : MergeConfig.

(** Modelled from the spec: the location of a finding made absolute, from
    the offset of the text of the chunk (which begins at its overlap
    window), with the line of that offset. *)
Definition absolute (buffer : SourceBuffer) (c : Chunk) (f : Finding) : Finding :=
  let at_ := overlapStart c + location f in
  {| category := category f; severity := severity f;
     confidence := confidence f; location := at_;
     line := lineOf buffer at_; description := description f;
     recommendation := recommendation f |}.

Definition sameFinding (f g : Finding) : bool :=
  bool_decide (category f = category g)
  && (location f - location g <=? dedupWindow cfg)
  && (location g - location f <=? dedupWindow cfg)
  && similar cfg (description f) (description g).

(** Modelled from the spec: a finding joins those kept so far; if one of
    them is the same finding the more confident of the two stays, the
    earlier one on a tie. *)
Fixpoint keep (kept : list Finding) (f : Finding) : list Finding :=
  match kept with
  | [] => [f]
  | g :: rest =>
      if sameFinding f g then
        (if Qle_bool (confidence f) (confidence g) then g else f) :: rest
      else g :: keep rest f
  end.

Definition deduplicate (fs : list Finding) : list Finding :=
  foldl keep [] fs.

(** The outcomes, keyed by the id of their chunk. *)
Definition byChunk (outcomes : list AnalysisOutcome)
  : gmap ChunkId AnalysisOutcome :=
  list_to_map ((fun o => (chunkId o, o)) <$> outcomes).

(** Modelled from the spec: the findings of the chunks in the order of the
    chunks, each at its absolute location. *)
Definition collect (buffer : SourceBuffer) (by_chunk : gmap ChunkId AnalysisOutcome)
    (cs : list Chunk) : list Finding :=
  c ← cs;
  match by_chunk !! id c with
  | Some o => absolute buffer c <$> findings o
  | None => []
  end.

Definition countSeverity (s : Severity) (fs : list Finding) : nat :=
  length (filter (fun f => severity f = s) fs).

Definition filteredBytes (libraryMatches : list LibraryMatch) : nat :=
  sum_list_with (fun m => if shouldFilter m
                          then snd (matchRange m) - fst (matchRange m) else 0)
                libraryMatches.

(** Modelled from the spec: merge(outcomes, chunks, buffer).  The library
    matches are those of the filter; the timestamp and the processing time
    of the result are read from the clock. *)
Definition merge (clock : Clock) (outcomes : list AnalysisOutcome)
    (cs : list Chunk) (buffer : SourceBuffer)
    (libraryMatches : list LibraryMatch) : AnalysisResult :=
  let by_chunk := byChunk outcomes in
  let ordered :=
    merge_sort findingBefore (deduplicate (collect buffer by_chunk cs)) in
  {| metricsSize := len buffer;
     metricsLines := length (lineStarts buffer);
     securityFindings := ordered;
     librariesDetected := libraryMatches;
     chunks := cs;
     summary :=
       {| totalSecurityIssues := length ordered;
          criticalIssues := countSeverity critical ordered;
          highIssues := countSeverity high ordered;
          mediumIssues := countSeverity medium ordered;
          lowIssues := countSeverity low ordered;
          librariesCount := length libraryMatches;
          codeReduction :=
            match len buffer with
            | O => 0%Q
            | S _ => (Q_of_nat (filteredBytes libraryMatches)
                      / Q_of_nat (len buffer))%Q
            end;
          processingTime := now clock - startedAt clock;
          tokensUsed :=
            sum_list_with estimatedTokens
              (filter (fun c => is_Some (by_chunk !! id c)) cs) |};
     timestamp := now clock |}.

End Merge.

(** ** The whole run *)

(** Modelled from the spec: the configuration the core consumes. *)
Record Config : Type := {
  chunking : ChunkingStrategy;
  charsPerToken : nat;
  orchestration : OrchestratorConfig;
  scoring : ScoreConfig;
  merging : MergeConfig
}.

(** Modelled from the spec: the configuration is invalid when the overlap
    is not smaller than the chunk limit. *)
Definition validate (cfg : Config) : bool :=
  overlapTokens (chunking cfg) <? maxTokens (chunking cfg).

(** Modelled from the spec: the work a run has done, in order. *)
Inductive Stage : Type :=
  | loading
  | scanning
  | filtering
  | chunking_
  | scoring_
  | dispatching (analyzerCalls : nat)
  | merging_.

(** A run either aborts with an error or yields a value; either way it
    leaves the stages it went through. *)
Definition M (A : Type) : Type := list Stage -> (ErrorKind + A) * list Stage.

Definition ret {A} (a : A) : M A := fun log => (inr a, log).
Definition abort {A} (e : ErrorKind) : M A := fun log => (inl e, log).
Definition bind {A B} (m : M A) (k : A -> M B) : M B :=
  fun log =>
    match m log with
    | (inl e, log') => (inl e, log')
    | (inr a, log') => k a log'
    end.
Definition did (s : Stage) : M unit := fun log => (inr tt, log ++ [s]).

#[global] Instance M_ret : MRet M := @ret.
#[global] Instance M_bind : MBind M := fun A B k m => bind m k.

(** Modelled from the spec: what the surroundings supply to a run, the
    bytes of the input (or nothing when it cannot be read), the library
    filter, the security patterns, the analyzer and the clock. *)
Record Surroundings : Type := {
  readInput : option (list byte);
  matchLibraries : SourceBuffer -> list LibraryMatch;
  securityPatterns : list SecurityPattern;
  analyzer : Analyzer;
  clock : Clock
}.

Definition checkConfig (cfg : Config) : M unit :=
  if validate cfg then ret tt else abort ConfigurationInvalid.

Definition loadBuffer (env : Surroundings) : M SourceBuffer :=
  did loading ;;
  match readInput env with
  | Some s => ret (load s)
  | None => abort BufferLoadFailed
  end.

(** Modelled from the spec: the pipeline, data flowing strictly forward
    from the scanner to the merger. *)
Definition pipeline (cfg : Config) (env : Surroundings) : M AnalysisResult :=
  checkConfig cfg ;;
  buffer ← loadBuffer env ;
  did scanning ;;
  let scanned := scan buffer in
  did filtering ;;
  let libraries := matchLibraries env buffer in
  did chunking_ ;;
  let built :=
    build (charsPerToken cfg) (chunking cfg) buffer libraries (marks scanned) in
  did scoring_ ;;
  let ordered :=
    prioritize (scoring cfg) buffer libraries (securityPatterns env) built in
  let pool := run (orchestration cfg) (analyzer env) ordered in
  did (dispatching (calls pool)) ;;
  did merging_ ;;
  ret (merge (merging cfg) (clock env) (finished pool) ordered buffer libraries).

Definition analyzeSource (cfg : Config) (env : Surroundings)
  : (ErrorKind + AnalysisResult) * list Stage :=
  pipeline cfg env [].

(** ** Notions used in the statements *)

(** The names of the members of ChunkType, as the declaration spells
    them. *)
Definition typeName (t : ChunkType) : string :=
  match t with
  | type_function => "function"
  | type_class => "class"
  | type_module => "module"
  | type_global => "global"
  | type_event_handler => "event-handler"
  | type_library => "library"
  | type_utility => "utility"
  | type_security_relevant => "security-relevant"
  | type_unknown => "unknown"
  end.

Definition markBefore (a b : BoundaryMark) : Prop := offset a < offset b.

(** The state of the scanner after a run of bytes. *)
Definition stateAfter (st : ScanState) (s : list byte) : ScanState :=
  foldl step st s.

(** Ranges that follow one another from [a] to [c] without gap, overlap or
    empty range. *)
Inductive Tiles : nat -> nat -> list range -> Prop :=
  | tiles_nil a : Tiles a a []
  | tiles_cons a b c rs : a < b -> Tiles b c rs -> Tiles a c ((a, b) :: rs).

Definition inRange (i : nat) (r : range) : Prop := fst r <= i < snd r.

(** ** Inputs used in the examples *)

Definition twoFunctions : SourceBuffer :=
  load (bytes_of "function a(){eval(x)}function b(){return 1}").

Definition unterminated : SourceBuffer :=
  load (bytes_of "function a(){return 'unterminated").

Definition tinyStrategy : ChunkingStrategy :=
  {| maxTokens := 3; overlapTokens := 0; preserveFunctions := true;
     preserveScopes := false; prioritizeImportant := false |}.

End Core.

(** * The remaining command and the helpers of the test setup *)

Module Rest.

Import Cli.

#[local] Open Scope N_scope.

(** ** handleLibraries *)

(** One constructor per [console.*] call of [handleLibraries]; the four
    planned detections are one notice. *)
Inductive libraries_line : Type :=
  | libraries_file_not_found (path : js_string)
  | libraries_title
  | libraries_rule
  | libraries_not_implemented
  | libraries_planned
  | libraries_failed (message : js_string).

Record LibrariesRun : Type := {
  librariesConsole : list libraries_line;
  librariesExited : option N
}.

(** The handler looks at the existence of the file only; nothing in its
    [try] block throws, so its [catch] is never entered. *)
Definition handleLibraries (env : Env) (file : js_string) : LibrariesRun :=
  if negb (existsSync env file) then
    {| librariesConsole := [libraries_file_not_found file];
       librariesExited := Some 1 |}
  else
    {| librariesConsole :=
         [libraries_title; libraries_rule; libraries_not_implemented;
          libraries_planned];
       librariesExited := None |}.

(** ** The test setup *)

(** [String.prototype.repeat] *)
Definition repeat_string (s : js_string) (count : N) : js_string :=
  N.iter count (app s) [].

(** const baseCode, with its two double quotes written as code units. *)
Definition baseCode : js_string :=
  of_string "function test() { return " ++ [34] ++ of_string "hello world"
  ++ [34] ++ of_string "; }".

(** createLargeJavaScriptFile, for a whole number of megabytes.  [repeat]
    throws a RangeError when the result would be longer than the longest
    string of the engine, [maxStringLength]. *)
Definition createLargeJavaScriptFile (maxStringLength sizeInMB : N)
  : completion js_string :=
  let targetSize := sizeInMB * 1024 * 1024 in
  let repetitions := ceil_div targetSize (N.of_nat (List.length baseCode)) in
  if maxStringLength <? N.of_nat (List.length baseCode) * repetitions
  then Throw (of_string "Invalid string length")
  else Normal (repeat_string baseCode repetitions).

(** The expressions of [toContainSecurityPattern]: a literal text, or a
    literal text, any white space, and a literal text. *)
Inductive Regex : Type :=
  | text (s : js_string)
  | text_spaces_text (before after : js_string).

Definition securityPatterns : list Regex :=
  [ text_spaces_text (of_string "eval") (of_string "(");
    text_spaces_text (of_string "Function") (of_string "(");
    text (of_string "document.write");
    text_spaces_text (of_string "innerHTML") (of_string "=");
    text_spaces_text (of_string "outerHTML") (of_string "=");
    text_spaces_text (of_string ".src") (of_string "=");
    text (of_string "window.location");
    text (of_string "document.location");
    text (of_string "localStorage");
    text (of_string "sessionStorage");
    text (of_string "document.cookie");
    text (of_string "XMLHttpRequest");
    text_spaces_text (of_string "fetch") (of_string "(");
    text (of_string "WebSocket");
    text (of_string "postMessage") ].

(** A match of the expression at the head of the input. *)
Definition matches_here (r : Regex) (s : js_string) : bool :=
  match r with
  | text t => bool_decide (is_Some (literal t s))
  | text_spaces_text a b =>
      match literal a s with
      | Some s1 => bool_decide (is_Some (literal b (skip_while is_space s1)))
      | None => false
      end
  end.

(** [pattern.test(received)]: a match anywhere in the input. *)
Fixpoint test (r : Regex) (received : js_string) : bool :=
  matches_here r received
  || match received with
     | [] => false
     | _ :: rest => test r rest
     end.

(** toContainSecurityPattern: the patterns found, and whether the matcher
    passes. *)
Definition foundPatterns (received : js_string) : list Regex :=
  List.filter (fun r => test r received) securityPatterns.

Definition toContainSecurityPattern (received : js_string) : bool :=
  0 <? N.of_nat (List.length (foundPatterns received)).

(** ** Notions used in the statements *)

(** The content begins with the second half of a surrogate pair. *)
Definition starts_low (b : js_string) : bool :=
  match b with
  | d :: _ => is_low_surrogate d
  | [] => false
  end.

(** The console lines that report a number of the file. *)
Definition reports_number (l : console_line) : bool :=
  match l with
  | log_size_MB _ | log_lines _ | log_estimated_functions _
  | log_estimated_tokens _ | log_chunks_needed_200k _ => true
  | _ => false
  end.

(** The text [needle] occurs in [s]. *)
Definition occurs (needle s : js_string) : Prop :=
  exists before after, s = before ++ needle ++ after.

End Rest.

(** * Properties of the front end *)

Module CliFacts.

Import Cli.

#[local] Open Scope N_scope.

Lemma ceil_div_bounds (a b : N) :
  0 < b -> a <= b * ceil_div a b /\ b * ceil_div a b < a + b.
Proof.
  intros Hb. unfold ceil_div.
  pose proof (N.div_mod a b ltac:(lia)) as Hdm.
  pose proof (N.mod_lt a b ltac:(lia)) as Hlt.
  destruct (a mod b =? 0) eqn:E.
  - apply N.eqb_eq in E.
    generalize dependent (a / b). generalize dependent (a mod b).
    intros; lia.
  - apply N.eqb_neq in E. rewrite N.mul_add_distr_l.
    generalize dependent (a / b). generalize dependent (a mod b).
    intros; lia.
Qed.

Lemma ceil_div_le_1 (a b : N) : 0 < a -> a <= b -> ceil_div a b = 1.
Proof.
  intros Ha Hab.
  destruct (ceil_div_bounds a b ltac:(lia)) as [H1 H2].
  nia.
Qed.

Lemma reported_tokens_analyze env options content :
  existsSync env (file options) = true ->
  readFileSync env (file options) = Normal content ->
  reported_tokens (handleAnalyze env options)
  = [ceil_div (byteLength content) 4].
Proof.
  intros He Hr. unfold handleAnalyze, reported_tokens.
  rewrite He, Hr. cbn [negb console].
  destruct (is_true (verbose options)); cbn;
    destruct (_ <? _); reflexivity.
Qed.

(** An environment with one file. *)
Definition single_file (path content : js_string) (parsed : completion value) : Env :=
  {| packagePath := path;
     existsSync := fun p => bool_decide (p = path);
     readFileSync := fun p =>
       if bool_decide (p = path) then Normal content
       else Throw (of_string "ENOENT");
     JSON_parse := fun _ => parsed |}.

Definition plain_options (path : js_string) : AnalysisOptions :=
  {| file := path; output := None; provider := Some claude;
     focus := Some security; format := Some markdown; verbose := None;
     maxTokens := Some 180000; filterLibraries := Some true |}.

(** C1, amended: the estimated token count of a content is the ceiling of
    its UTF-8 byte length over 4, the least number of 4-byte tokens that
    hold it; the ratio is a constant of [getFileMetrics], and [analyze]
    reports that number whatever its options are. *)
Theorem C1_estimate_has_fixed_ratio env options content :
  existsSync env (file options) = true ->
  readFileSync env (file options) = Normal content ->
  estimatedTokens (getFileMetrics content) = ceil_div (byteLength content) 4
  /\ byteLength content <= 4 * estimatedTokens (getFileMetrics content)
  /\ 4 * estimatedTokens (getFileMetrics content) < byteLength content + 4
  /\ reported_tokens (handleAnalyze env options)
     = [estimatedTokens (getFileMetrics content)].
Proof.
  intros He Hr. cbn [getFileMetrics estimatedTokens].
  destruct (ceil_div_bounds (byteLength content) 4 ltac:(lia)) as [H1 H2].
  repeat split; try assumption.
  by apply reported_tokens_analyze.
Qed.

Lemma C1_estimate_has_fixed_ratio_witness :
  let path := of_string "bundle.js" in
  let env := single_file path (of_string "var a=1;x") (Throw []) in
  estimatedTokens (getFileMetrics (of_string "var a=1;x")) = 3
  /\ reported_tokens (handleAnalyze env (plain_options path)) = [3].
Proof.
  intros path env.
  destruct (C1_estimate_has_fixed_ratio env (plain_options path)
              (of_string "var a=1;x") eq_refl eq_refl) as (H1 & _ & _ & H4).
  split; [exact H1 | exact H4].
Defined.

(** C1 as stated fails: no options and no environment make [analyze]
    report an estimate other than the one at 4 bytes per token. *)
Lemma C1_ratio_is_not_configurable :
  ~ (exists env options content,
       existsSync env (file options) = true
       /\ readFileSync env (file options) = Normal content
       /\ reported_tokens (handleAnalyze env options)
          <> [ceil_div (byteLength content) 4]).
Proof.
  intros (env & options & content & He & Hr & Hne).
  apply Hne. by apply reported_tokens_analyze.
Qed.

(** The package file holds a truthy [version]. *)
Definition has_truthy_version (env : Env) (v : value) : Prop :=
  existsSync env (packagePath env) = true
  /\ exists text packageJson,
       readFileSync env (packagePath env) = Normal text
       /\ JSON_parse env text = Normal packageJson
       /\ get_version_property packageJson = Normal (Some v)
       /\ truthy v = true.

(** [getVersion] always returns a value and never throws: it is the
    [version] of the package file when that file exists, is read, parses,
    and has a truthy [version], and '0.1.0' in every other case; it is a
    string unless that truthy [version] is not one. *)
Lemma getVersion_cases env :
  (forall v, has_truthy_version env v -> getVersion env = v)
  /\ ((forall v, ~ has_truthy_version env v) -> getVersion env = fallbackVersion)
  /\ (is_string (getVersion env) = false ->
      exists v, has_truthy_version env v /\ is_string v = false).
Proof.
  unfold getVersion, getVersion_try, has_truthy_version.
  destruct (existsSync env (packagePath env)) eqn:He.
  2: { split; [|split]; [intros v [? _]; done | done | done]. }
  destruct (readFileSync env (packagePath env)) as [text|m] eqn:Hr.
  2: { split; [|split]; [intros v (_ & ? & ? & ? & _); done | done | done]. }
  destruct (JSON_parse env text) as [pj|m] eqn:Hp.
  2: { split; [|split]; [|done|done].
       intros v (_ & t & pj & Ht & Hpj & _). congruence. }
  destruct (get_version_property pj) as [[w|]|m] eqn:Hv.
  - destruct (truthy w) eqn:Htr.
    + split; [|split].
      * intros v (_ & t & pj' & Ht & Hpj & Hv' & _). congruence.
      * intros Hno. exfalso. apply (Hno w). split; [done|].
        exists text, pj. done.
      * intros Hs. exists w. split; [|done]. split; [done|].
        exists text, pj. done.
    + split; [|split]; [|done|done].
      intros v (_ & t & pj' & Ht & Hpj & Hv' & Htv). congruence.
  - split; [|split]; [|done|done].
    intros v (_ & t & pj' & Ht & Hpj & Hv' & _). congruence.
  - split; [|split]; [|done|done].
    intros v (_ & t & pj' & Ht & Hpj & Hv' & _). congruence.
Qed.

(** A text between double quotes. *)
Definition quoted (s : js_string) : js_string := [34] ++ s ++ [34].

(** An environment whose package file holds [text], which [JSON.parse]
    reads as [parsed]; any other text is taken as malformed. *)
Definition package_file (text : js_string) (parsed : value) : Env :=
  {| packagePath := of_string "package.json";
     existsSync := fun p => bool_decide (p = of_string "package.json");
     readFileSync := fun p =>
       if bool_decide (p = of_string "package.json") then Normal text
       else Throw (of_string "ENOENT");
     JSON_parse := fun t =>
       if bool_decide (t = text) then Normal parsed
       else Throw (of_string "SyntaxError") |}.

(** Four package files: one with the version 1.2.3, one that is null, one
    with the number 2 as its version, and one whose version is the empty
    string. *)
Definition package_1_2_3 : Env :=
  package_file
    (of_string "{" ++ quoted (of_string "version") ++ of_string ":"
     ++ quoted (of_string "1.2.3") ++ of_string "}")
    (Object [(of_string "version", String (of_string "1.2.3"))]).

Definition package_null : Env := package_file (of_string "null") Null.

Definition package_version_2 : Env :=
  package_file
    (of_string "{" ++ quoted (of_string "version") ++ of_string ":2}")
    (Object [(of_string "version", Number 2%float)]).

Definition package_empty_version : Env :=
  package_file
    (of_string "{" ++ quoted (of_string "version") ++ of_string ":"
     ++ quoted [] ++ of_string "}")
    (Object [(of_string "version", String [])]).

Lemma getVersion_cases_witness :
  getVersion package_1_2_3 = String (of_string "1.2.3")
  /\ getVersion package_null = fallbackVersion.
Proof.
  split.
  - apply (proj1 (getVersion_cases _)).
    split; [reflexivity|]. eexists _, _. repeat split; reflexivity.
  - apply (proj1 (proj2 (getVersion_cases _))).
    intros v (_ & t & pj & Ht & Hpj & Hv & _).
    cbv in Ht. inversion Ht; subst t.
    cbv in Hpj. inversion Hpj; subst pj. discriminate Hv.
Defined.

(** C9: the code breaks the claim where the package file is
    {"version":2}: the file exists, is read and parses, its [version] is
    truthy, and [getVersion], declared to return a string, returns the
    number 2. *)
Lemma C9_getVersion_returns_a_number :
  has_truthy_version package_version_2 (Number 2%float)
  /\ getVersion package_version_2 = Number 2%float
  /\ is_string (getVersion package_version_2) = false.
Proof.
  split; [|split; reflexivity].
  split; [reflexivity|]. eexists _, _. repeat split; reflexivity.
Qed.

Lemma handleMetrics_console env file content :
  existsSync env file = true ->
  readFileSync env file = Normal content ->
  handleMetrics env file
  = {| console :=
         [log_metrics_title; log_rule;
          log_size_MB (byteLength content);
          log_lines (split_newline_length content);
          log_estimated_functions (count_matches O content);
          log_estimated_tokens (ceil_div (byteLength content) 4);
          log_chunks_needed_200k
            (ceil_div (ceil_div (byteLength content) 4) 200000)];
       exited := None |}.
Proof. intros He Hr. unfold handleMetrics. by rewrite He, Hr. Qed.

(** C10: for a file that is read, the metrics command reports one number
    of chunks needed, the ceiling of the estimated tokens over the constant
    200000 (the least number of chunks of 200000 tokens that hold them),
    where the estimated tokens are the ceiling of the size over 4.  No
    token limit enters: an estimate above the 180000 of [analyze] and up
    to 200000 gives one chunk, and two or more chunks are reported exactly
    above 200000 tokens.  For an empty content it reports 0 chunks and 1
    line. *)
Theorem C10_chunks_needed_by_200000 env file content :
  existsSync env file = true ->
  readFileSync env file = Normal content ->
  let tokens := estimatedTokens (getFileMetrics content) in
  exists k,
    reported_chunks (handleMetrics env file) = [k]
    /\ tokens <= 200000 * k /\ 200000 * k < tokens + 200000
    /\ byteLength content <= 4 * tokens /\ 4 * tokens < byteLength content + 4
    /\ (180000 < tokens <= 200000 -> k = 1)
    /\ (2 <= k <-> 200000 < tokens)
    /\ (content = [] ->
        k = 0 /\ reported_lines (handleMetrics env file) = [1]).
Proof.
  intros He Hr tokens.
  rewrite (handleMetrics_console env file content He Hr).
  subst tokens. cbn [getFileMetrics estimatedTokens].
  exists (ceil_div (ceil_div (byteLength content) 4) 200000).
  destruct (ceil_div_bounds (byteLength content) 4 ltac:(lia)) as [H1 H2].
  destruct (ceil_div_bounds (ceil_div (byteLength content) 4) 200000
              ltac:(lia)) as [H3 H4].
  split; [reflexivity|].
  repeat (split; [lia|]).
  intros ->. split; reflexivity.
Qed.

Lemma C10_chunks_needed_by_200000_witness :
  let path := of_string "bundle.js" in
  let content := Rest.repeat_string (of_string "a") 1000000 in
  reported_chunks (handleMetrics (single_file path content (Throw [])) path)
  = [2].
Proof.
  intros path content.
  destruct (C10_chunks_needed_by_200000
              (single_file path content (Throw [])) path content
              eq_refl eq_refl) as (k & Hk & H1 & H2 & H3 & H4 & _).
  assert (Hsize : byteLength content = 1000000) by (vm_compute; reflexivity).
  rewrite Hsize in H3, H4.
  rewrite Hk. f_equal. lia.
Defined.

End CliFacts.

(** * Further properties of the front end *)

Module MoreFacts.

Import Cli Rest.

#[local] Open Scope N_scope.

(** Induction that follows [byteLength], which reads one code unit or two. *)
Lemma list_pair_ind {A} (P : list A -> Prop) :
  P [] -> (forall c, P [c]) ->
  (forall c d s, P s -> P (d :: s) -> P (c :: d :: s)) ->
  forall s, P s.
Proof.
  intros Hnil Hone Hstep s.
  enough (P s /\ forall c, P (c :: s)) by tauto.
  induction s as [|d s [IH1 IH2]]; [by split|].
  split; [apply IH2|]. intros c. by apply Hstep.
Qed.

Lemma byteLength_cons c rest :
  byteLength (c :: rest)
  = if c <? 0x80 then 1 + byteLength rest
    else if c <? 0x800 then 2 + byteLength rest
    else if is_high_surrogate c then
      match rest with
      | d :: rest' =>
          if is_low_surrogate d then 4 + byteLength rest'
          else 3 + byteLength rest
      | [] => 3
      end
    else 3 + byteLength rest.
Proof. reflexivity. Qed.

Lemma byteLength_low_surrogate d rest :
  is_low_surrogate d = true -> byteLength (d :: rest) = 3 + byteLength rest.
Proof.
  unfold is_low_surrogate. intros [H1%N.leb_le H2%N.leb_le]%andb_true_iff.
  rewrite byteLength_cons.
  assert ((d <? 0x80) = false) as -> by (apply N.ltb_ge; lia).
  assert ((d <? 0x800) = false) as -> by (apply N.ltb_ge; lia).
  assert (is_high_surrogate d = false) as ->; [|done].
  unfold is_high_surrogate. apply andb_false_iff. right. apply N.leb_gt. lia.
Qed.

Lemma byteLength_bounds content :
  N.of_nat (List.length content) <= byteLength content
  /\ byteLength content <= 3 * N.of_nat (List.length content).
Proof.
  induction content as [| c | c d s IHs IHd] using list_pair_ind.
  - cbn. lia.
  - cbn. repeat case_match; lia.
  - rewrite byteLength_cons.
    change (List.length (c :: d :: s)) with (S (List.length (d :: s))).
    change (List.length (d :: s)) with (S (List.length s)) in *.
    rewrite !Nat2N.inj_succ in *.
    destruct (c <? 0x80); [lia|]. destruct (c <? 0x800); [lia|].
    destruct (is_high_surrogate c); [|lia].
    destruct (is_low_surrogate d); lia.
Qed.


Lemma byteLength_ascii content :
  Forall (fun c => c < 0x80) content ->
  byteLength content = N.of_nat (List.length content).
Proof.
  induction 1 as [|c rest Hc _ IH]; [done|].
  rewrite byteLength_cons. apply N.ltb_lt in Hc as ->.
  change (List.length (c :: rest)) with (S (List.length rest)).
  rewrite Nat2N.inj_succ. lia.
Qed.

Lemma ceil_div_mono a b k : 0 < k -> a <= b -> ceil_div a k <= ceil_div b k.
Proof.
  intros Hk Hab.
  destruct (CliFacts.ceil_div_bounds a k Hk) as [Ha1 Ha2].
  destruct (CliFacts.ceil_div_bounds b k Hk) as [Hb1 Hb2].
  nia.
Qed.

Lemma ceil_div_0_iff a k : 0 < k -> ceil_div a k = 0 <-> a = 0.
Proof.
  intros Hk. destruct (CliFacts.ceil_div_bounds a k Hk) as [H1 H2].
  split; [intros E; rewrite E in *; lia | intros ->; nia].
Qed.

(** X1: the size of a content in bytes lies between its length in UTF-16
    code units and three times that length. *)
Theorem size_between_length_and_triple content :
  N.of_nat (List.length content) <= size (getFileMetrics content)
  /\ size (getFileMetrics content) <= 3 * N.of_nat (List.length content).
Proof. apply byteLength_bounds. Qed.

(** X2: for a content of ASCII characters the size is the length, and the
    estimated tokens are the ceiling of the length over 4, the number the
    tests compute from [content.length]. *)
Theorem ascii_size_is_length content :
  Forall (fun c => c < 0x80) content ->
  size (getFileMetrics content) = N.of_nat (List.length content)
  /\ estimatedTokens (getFileMetrics content)
     = ceil_div (N.of_nat (List.length content)) 4.
Proof.
  intros H. cbn [getFileMetrics size estimatedTokens].
  by rewrite (byteLength_ascii content H).
Qed.

Lemma ascii_size_is_length_witness :
  size (getFileMetrics (of_string "var a=1;x")) = 9
  /\ estimatedTokens (getFileMetrics (of_string "var a=1;x")) = 3.
Proof.
  apply (ascii_size_is_length (of_string "var a=1;x")).
  repeat constructor.
Defined.

(** X3: the estimate the tests compute from the length of a content,
    [Math.ceil(content.length / 4)], is never above the estimate of
    [getFileMetrics], which counts bytes. *)
Theorem length_estimate_below_byte_estimate content :
  ceil_div (N.of_nat (List.length content)) 4
  <= estimatedTokens (getFileMetrics content).
Proof.
  cbn [getFileMetrics estimatedTokens].
  apply ceil_div_mono; [lia|]. apply byteLength_bounds.
Qed.

Lemma byteLength_app_le a b :
  byteLength (a ++ b) <= byteLength a + byteLength b.
Proof.
  induction a as [| c | c d s IHs IHd] using list_pair_ind.
  - cbn. lia.
  - cbn [app]. rewrite !byteLength_cons. cbn [byteLength].
    destruct (c <? 0x80); [lia|]. destruct (c <? 0x800); [lia|].
    destruct (is_high_surrogate c); [|lia].
    destruct b as [|d b']; [lia|].
    destruct (is_low_surrogate d) eqn:Hd; [|lia].
    rewrite (byteLength_low_surrogate d b' Hd). lia.
  - cbn [app] in *. rewrite (byteLength_cons c (d :: s ++ b)).
    rewrite (byteLength_cons c (d :: s)).
    destruct (c <? 0x80); [lia|]. destruct (c <? 0x800); [lia|].
    destruct (is_high_surrogate c); [|lia].
    destruct (is_low_surrogate d); lia.
Qed.

Lemma byteLength_app_eq a b :
  starts_low b = false ->
  byteLength (a ++ b) = byteLength a + byteLength b.
Proof.
  intros Hb.
  induction a as [| c | c d s IHs IHd] using list_pair_ind.
  - cbn. lia.
  - cbn [app]. rewrite !byteLength_cons. cbn [byteLength].
    destruct (c <? 0x80); [lia|]. destruct (c <? 0x800); [lia|].
    destruct (is_high_surrogate c); [|lia].
    destruct b as [|d b']; [cbn [byteLength]; lia|].
    cbn in Hb. rewrite Hb. lia.
  - cbn [app] in *. rewrite (byteLength_cons c (d :: s ++ b)).
    rewrite (byteLength_cons c (d :: s)).
    destruct (c <? 0x80); [lia|]. destruct (c <? 0x800); [lia|].
    destruct (is_high_surrogate c); [|lia].
    destruct (is_low_surrogate d); lia.
Qed.

(** X4: the size of two contents joined is at most the sum of their sizes,
    and it is the sum whenever the second does not begin with a low
    surrogate, that is, whenever the cut does not split a character. *)
Theorem size_of_concatenation a b :
  size (getFileMetrics (a ++ b))
  <= size (getFileMetrics a) + size (getFileMetrics b)
  /\ (starts_low b = false ->
      size (getFileMetrics (a ++ b))
      = size (getFileMetrics a) + size (getFileMetrics b)).
Proof.
  cbn [getFileMetrics size]. split.
  - apply byteLength_app_le.
  - apply byteLength_app_eq.
Qed.

Lemma size_of_concatenation_witness :
  size (getFileMetrics (of_string "ab" ++ of_string "cde")) = 2 + 3.
Proof.
  exact (proj2 (size_of_concatenation (of_string "ab") (of_string "cde")) eq_refl).
Defined.

Lemma split_newline_length_app a b :
  split_newline_length (a ++ b) + 1
  = split_newline_length a + split_newline_length b.
Proof.
  induction a as [|c a IH]; cbn [app split_newline_length]; [lia|].
  destruct (c =? 10); lia.
Qed.

Lemma split_newline_length_bounds a :
  1 <= split_newline_length a <= N.of_nat (List.length a) + 1.
Proof.
  induction a as [|c a IH]; cbn [split_newline_length]; [cbn; lia|].
  change (List.length (c :: a)) with (S (List.length a)).
  rewrite Nat2N.inj_succ. destruct (c =? 10); lia.
Qed.

(** X5: a content has at least one line and at most one more than its
    length; two contents joined by a newline have the lines of both, and
    joined directly one line less. *)
Theorem lines_of_joined_contents a b :
  1 <= lines (getFileMetrics a) <= N.of_nat (List.length a) + 1
  /\ lines (getFileMetrics (a ++ [10] ++ b))
     = lines (getFileMetrics a) + lines (getFileMetrics b)
  /\ lines (getFileMetrics (a ++ b)) + 1
     = lines (getFileMetrics a) + lines (getFileMetrics b).
Proof.
  cbn [getFileMetrics lines]. split; [apply split_newline_length_bounds|].
  split; [|apply split_newline_length_app].
  pose proof (split_newline_length_app a ([10] ++ b)) as H.
  cbn [app split_newline_length] in H. cbn [app].
  change (10 =? 10) with true in H. cbn iota in H. lia.
Qed.


Lemma byteLength_0_iff content : byteLength content = 0 <-> content = [].
Proof.
  split; [|by intros ->].
  destruct content as [|c rest]; [done|].
  pose proof (byteLength_bounds (c :: rest)) as [H _].
  change (List.length (c :: rest)) with (S (List.length rest)) in H.
  rewrite Nat2N.inj_succ in H. lia.
Qed.

(** X6: the estimated tokens are zero for the empty content only, never
    exceed the size, and are smaller than the size from two bytes on. *)
Theorem tokens_against_size content :
  (estimatedTokens (getFileMetrics content) = 0 <-> content = [])
  /\ estimatedTokens (getFileMetrics content) <= size (getFileMetrics content)
  /\ (2 <= size (getFileMetrics content) ->
      estimatedTokens (getFileMetrics content) < size (getFileMetrics content)).
Proof.
  cbn [getFileMetrics estimatedTokens size].
  destruct (CliFacts.ceil_div_bounds (byteLength content) 4 ltac:(lia))
    as [H1 H2].
  split; [|split; lia].
  rewrite ceil_div_0_iff by lia. apply byteLength_0_iff.
Qed.

Lemma tokens_against_size_witness :
  estimatedTokens (getFileMetrics (of_string "var a=1;x"))
  < size (getFileMetrics (of_string "var a=1;x")).
Proof.
  apply (proj2 (proj2 (tokens_against_size (of_string "var a=1;x")))).
  vm_compute. discriminate.
Defined.

(** X7: the chunks the metrics command reports are the least number of
    200000-token chunks that hold the estimated tokens, and more than one
    chunk is reported exactly for a content of more than 800000 bytes. *)
Theorem chunks_needed_is_least_cover env file content :
  existsSync env file = true ->
  readFileSync env file = Normal content ->
  exists k,
    reported_chunks (handleMetrics env file) = [k]
    /\ estimatedTokens (getFileMetrics content) <= 200000 * k
    /\ 200000 * k < estimatedTokens (getFileMetrics content) + 200000
    /\ (2 <= k <-> 800000 < size (getFileMetrics content)).
Proof.
  intros He Hr.
  rewrite (CliFacts.handleMetrics_console env file content He Hr).
  cbn [getFileMetrics estimatedTokens size].
  eexists. split; [reflexivity|].
  destruct (CliFacts.ceil_div_bounds (byteLength content) 4 ltac:(lia))
    as [H1 H2].
  destruct (CliFacts.ceil_div_bounds (ceil_div (byteLength content) 4) 200000
              ltac:(lia)) as [H3 H4].
  repeat split; lia.
Qed.

Lemma chunks_needed_is_least_cover_witness :
  let path := of_string "bundle.js" in
  let env := CliFacts.single_file path (of_string "var a=1;x") (Throw []) in
  exists k, reported_chunks (handleMetrics env path) = [k]
            /\ 3 <= 200000 * k /\ 200000 * k < 3 + 200000.
Proof.
  intros path env.
  destruct (chunks_needed_is_least_cover env path (of_string "var a=1;x")
              eq_refl eq_refl) as (k & Hk & H1 & H2 & _).
  exists k. split; [exact Hk|]. split; [exact H1 | exact H2].
Defined.

(** X8: for the same file the analyze and the metrics command end alike:
    both exit with code 1 exactly when the file is missing or cannot be
    read, then without reporting any number (no size, lines, functions,
    tokens or chunks on either console), and otherwise neither exits and
    both report the same lines and the same estimated tokens. *)
Theorem analyze_and_metrics_end_alike env options :
  let a := handleAnalyze env options in
  let m := handleMetrics env (file options) in
  exited a = exited m
  /\ (exited m = Some 1 <->
      existsSync env (file options) = false
      \/ exists message, readFileSync env (file options) = Throw message)
  /\ (exited m = Some 1 ->
      reported_tokens a = [] /\ reported_tokens m = []
      /\ reported_lines a = [] /\ reported_chunks m = []
      /\ reported_lines m = []
      /\ Forall (fun l => reports_number l = false) (console a)
      /\ Forall (fun l => reports_number l = false) (console m))
  /\ (exited m <> Some 1 ->
      exited m = None
      /\ reported_tokens a = reported_tokens m
      /\ reported_lines a = reported_lines m
      /\ List.length (reported_tokens m) = 1%nat).
Proof.
  unfold handleAnalyze, handleMetrics.
  destruct (existsSync env (file options)) eqn:He; cbn [negb].
  2: { cbn. destruct (is_true (verbose options)); cbn;
       (split; [done|]); (split; [split; [by left|done]|]);
       (split; [|done]); intros _;
       repeat (split; [done|]); split; repeat constructor. }
  destruct (readFileSync env (file options)) as [content|message] eqn:Hr.
  2: { cbn. destruct (is_true (verbose options)); cbn;
       (split; [done|]);
       (split; [split; [right; by exists message|done]|]);
       (split; [|done]); intros _;
       repeat (split; [done|]); split; repeat constructor. }
  cbn [exited]. split; [done|]. split.
  { split; [done|]. intros [?|[? ?]]; done. }
  split; [done|]. intros _. split; [done|].
  unfold reported_tokens, reported_lines. cbn [console].
  destruct (is_true (verbose options)); cbn;
    destruct (_ <? _); done.
Qed.

(** X9: for a file that is read, the analyze command warns of a large file
    exactly when its size exceeds 50 MB (52428800 bytes), prints its
    options exactly when [verbose] is set, and ends with the notice that
    the analysis engine is not implemented. *)
Theorem analyze_warns_above_50_MB env options content :
  existsSync env (file options) = true ->
  readFileSync env (file options) = Normal content ->
  let a := handleAnalyze env options in
  (warn_large_file ∈ console a <-> 52428800 < size (getFileMetrics content))
  /\ (log_options options ∈ console a <-> verbose options = Some true)
  /\ (exists before,
        console a = before ++ [log_engine_not_implemented; log_next_steps]).
Proof.
  intros He Hr. unfold handleAnalyze. rewrite He, Hr. cbn [negb console].
  cbn [getFileMetrics size lines estimatedTokens].
  change (50 * 1024 * 1024) with 52428800.
  assert (Hv : is_true (verbose options) = true <-> verbose options = Some true).
  { destruct (verbose options) as [[]|]; cbn; split; done. }
  split; [|split].
  - destruct (52428800 <? byteLength content) eqn:E.
    + apply N.ltb_lt in E. split; [done|]. intros _. clear Hv.
      destruct (is_true (verbose options)); cbn;
        rewrite !elem_of_cons; tauto.
    + apply N.ltb_ge in E. split; [|lia]. clear Hv.
      destruct (is_true (verbose options)); cbn;
        rewrite !elem_of_cons, elem_of_nil; intuition discriminate.
  - rewrite <-Hv. clear Hv.
    destruct (is_true (verbose options)); destruct (_ <? _); cbn;
      rewrite !elem_of_cons, elem_of_nil; intuition discriminate.
  - destruct (is_true (verbose options)); destruct (_ <? _); cbn.
    + by eexists [_; _; _; _; _; _; _].
    + by eexists [_; _; _; _; _; _].
    + by eexists [_; _; _; _; _; _].
    + by eexists [_; _; _; _; _].
Qed.

Lemma analyze_warns_above_50_MB_witness :
  let path := of_string "bundle.js" in
  let env := CliFacts.single_file path (of_string "var a=1;x") (Throw []) in
  let options :=
    {| file := path; output := None; provider := None; focus := None;
       format := None; verbose := Some true; maxTokens := None;
       filterLibraries := None |} in
  log_options options ∈ console (handleAnalyze env options).
Proof.
  intros path env options.
  apply (proj1 (proj2 (analyze_warns_above_50_MB env options
                         (of_string "var a=1;x") eq_refl eq_refl))).
  reflexivity.
Defined.

(** X10: the libraries command exits with code 1 exactly when the file is
    missing; for a file that exists it prints the same notice whatever the
    file holds, even when the file cannot be read and the metrics command
    exits with code 1. *)
Theorem libraries_only_needs_the_file_to_exist env file :
  (librariesExited (handleLibraries env file) = Some 1 <->
   existsSync env file = false)
  /\ (existsSync env file = true ->
      handleLibraries env file
      = {| librariesConsole :=
             [libraries_title; libraries_rule; libraries_not_implemented;
              libraries_planned];
           librariesExited := None |})
  /\ (existsSync env file = true ->
      (exists message, readFileSync env file = Throw message) ->
      librariesExited (handleLibraries env file) = None
      /\ exited (handleMetrics env file) = Some 1).
Proof.
  unfold handleLibraries, handleMetrics.
  destruct (existsSync env file); cbn [negb].
  - split; [split; done|]. split; [done|].
    intros _ [message ->]. done.
  - split; [split; done|]. split; done.
Qed.

Lemma libraries_only_needs_the_file_to_exist_witness :
  let env := {| packagePath := of_string "package.json";
                existsSync := fun _ => true;
                readFileSync := fun _ => Throw (of_string "EACCES");
                JSON_parse := fun _ => Throw [] |} in
  librariesExited (handleLibraries env (of_string "bundle.js")) = None
  /\ exited (handleMetrics env (of_string "bundle.js")) = Some 1.
Proof.
  intros env.
  apply (proj2 (proj2 (libraries_only_needs_the_file_to_exist env
                         (of_string "bundle.js")))).
  - reflexivity.
  - by exists (of_string "EACCES").
Defined.

(** X13: the version [getVersion] returns is always truthy: a truthy
    [version] of the package file is returned as it is, and a falsy one
    (the empty string, 0, false, null) is replaced by '0.1.0'. *)
Theorem getVersion_is_truthy env :
  truthy (getVersion env) = true
  /\ (forall text packageJson v,
        existsSync env (packagePath env) = true ->
        readFileSync env (packagePath env) = Normal text ->
        JSON_parse env text = Normal packageJson ->
        get_version_property packageJson = Normal (Some v) ->
        getVersion env = if truthy v then v else String (of_string "0.1.0"))
  /\ truthy (String []) = false /\ truthy (Number 0%float) = false
  /\ truthy (Boolean false) = false /\ truthy Null = false.
Proof.
  split; [|split; [|repeat split]].
  - unfold getVersion, getVersion_try.
    destruct (existsSync env (packagePath env)); [|done].
    destruct (readFileSync env (packagePath env)) as [text|]; [|done].
    destruct (JSON_parse env text) as [pj|]; [|done].
    destruct (get_version_property pj) as [[v|]|]; [|done|done].
    by destruct (truthy v) eqn:E.
  - intros text pj v He Hr Hp Hv. unfold getVersion, getVersion_try.
    rewrite He, Hr, Hp, Hv. by destruct (truthy v).
Qed.

Lemma getVersion_is_truthy_witness :
  getVersion CliFacts.package_empty_version = String (of_string "0.1.0").
Proof.
  exact (proj1 (proj2 (getVersion_is_truthy CliFacts.package_empty_version))
           _ _ (String []) eq_refl eq_refl eq_refl eq_refl).
Defined.

(** *** The count of functions *)

Lemma literal_Some lit : forall s r, literal lit s = Some r -> s = lit ++ r.
Proof.
  induction lit as [|l lit IH]; intros s r; cbn [literal].
  - by intros [= ->].
  - destruct s as [|c s]; [done|].
    destruct (l =? c) eqn:E; [|done]. apply N.eqb_eq in E as ->.
    intros H%IH. by rewrite H.
Qed.

Lemma skip_while_suffix p s : exists skipped, s = skipped ++ skip_while p s.
Proof.
  induction s as [|c s [skipped IH]]; cbn [skip_while]; [by exists []|].
  destruct (p c); [|by exists []].
  exists (c :: skipped). cbn [app]. by rewrite <-IH.
Qed.

#[local] Open Scope nat_scope.

Lemma match_here_length s r :
  match_here s = Some r -> List.length r + 3 <= List.length s.
Proof.
  unfold match_here, alt_function_paren, alt_arrow_brace, alt_property_function.
  destruct (literal (of_string "function") s) as [s1|] eqn:E1.
  - apply literal_Some in E1.
    destruct (skip_while_suffix is_space s1) as [w Hw].
    destruct (literal (of_string "(") (skip_while is_space s1)) as [r'|] eqn:E2.
    + apply literal_Some in E2. intros [= <-].
      rewrite E1, Hw, E2. rewrite !length_app. cbn. lia.
    + destruct (literal (of_string "=>") s) as [s2|] eqn:E3.
      { apply literal_Some in E3. rewrite E3 in E1. discriminate E1. }
      destruct s as [|c s']; [done|].
      destruct (is_word c); [|done].
      destruct (literal (of_string ":") _) as [s3|] eqn:E4; [|done].
      apply literal_Some in E4.
      destruct (skip_while_suffix is_word s') as [w1 Hw1].
      destruct (skip_while_suffix is_space (skip_while is_word s')) as [w2 Hw2].
      destruct (skip_while_suffix is_space s3) as [w3 Hw3].
      intros E5%literal_Some.
      cbn [List.length]. rewrite Hw1, Hw2, E4, !length_app, Hw3, E5, !length_app.
      cbn. lia.
  - destruct (literal (of_string "=>") s) as [s2|] eqn:E3.
    + apply literal_Some in E3.
      destruct (skip_while_suffix is_space s2) as [w Hw].
      destruct (literal (of_string "{") (skip_while is_space s2)) as [r'|] eqn:E2.
      * apply literal_Some in E2. intros [= <-].
        rewrite E3, Hw, E2. rewrite !length_app. cbn. lia.
      * destruct s as [|c s']; [done|].
        destruct (is_word c) eqn:Ec; [|done].
        cbn in E3. injection E3 as -> _. done.
    + destruct s as [|c s']; [done|].
      destruct (is_word c); [|done].
      destruct (literal (of_string ":") _) as [s3|] eqn:E4; [|done].
      apply literal_Some in E4.
      destruct (skip_while_suffix is_word s') as [w1 Hw1].
      destruct (skip_while_suffix is_space (skip_while is_word s')) as [w2 Hw2].
      destruct (skip_while_suffix is_space s3) as [w3 Hw3].
      intros E5%literal_Some.
      cbn [List.length]. rewrite Hw1, Hw2, E4, !length_app, Hw3, E5, !length_app.
      cbn. lia.
Qed.

Lemma count_matches_bound s : forall skip,
  3 * N.to_nat (count_matches skip s) <= List.length s - skip.
Proof.
  induction s as [|c rest IH]; intros skip; cbn [count_matches]; [cbn; lia|].
  destruct skip as [|k].
  - destruct (match_here (c :: rest)) as [r|] eqn:E.
    + apply match_here_length in E. cbn [List.length] in E.
      specialize (IH (List.length rest - List.length r)).
      rewrite N2Nat.inj_add. change (N.to_nat 1) with 1. cbn [List.length]. lia.
    + specialize (IH 0). cbn [List.length]. lia.
  - specialize (IH k). cbn [List.length]. lia.
Qed.

(** X11: the matches counted as functions do not overlap and each is at
    least three code units long, so three times the count of functions is
    at most the length of the content. *)
Theorem functions_at_most_a_third_of_length content :
  3 * N.to_nat (functions (getFileMetrics content)) <= List.length content.
Proof.
  cbn [getFileMetrics functions].
  pose proof (count_matches_bound content 0). lia.
Qed.


Lemma occurs_cons needle c s : occurs needle s -> occurs needle (c :: s).
Proof. intros (b & a & ->). by exists (c :: b), a. Qed.

Lemma occurs_app_r needle w s : occurs needle s -> occurs needle (w ++ s).
Proof.
  intros (b & a & ->). exists (w ++ b), a. by rewrite <-app_assoc.
Qed.

Lemma match_here_occurs s r :
  match_here s = Some r ->
  occurs (of_string "function") s \/ occurs (of_string "=>") s.
Proof.
  unfold match_here, alt_function_paren, alt_arrow_brace, alt_property_function.
  destruct (literal (of_string "function") s) as [s1|] eqn:E1.
  { intros _. left. apply literal_Some in E1. by exists [], s1. }
  destruct (literal (of_string "=>") s) as [s2|] eqn:E2.
  { intros _. right. apply literal_Some in E2. by exists [], s2. }
  destruct s as [|c s']; [done|].
  destruct (is_word c); [|done].
  destruct (literal (of_string ":") _) as [s3|] eqn:E4; [|done].
  apply literal_Some in E4.
  destruct (skip_while_suffix is_word s') as [w1 Hw1].
  destruct (skip_while_suffix is_space (skip_while is_word s')) as [w2 Hw2].
  destruct (skip_while_suffix is_space s3) as [w3 Hw3].
  intros E5%literal_Some. left.
  apply occurs_cons. rewrite Hw1. apply occurs_app_r.
  rewrite Hw2. apply occurs_app_r. rewrite E4. apply occurs_app_r.
  rewrite Hw3. apply occurs_app_r. by exists [], r.
Qed.

Lemma count_matches_none s : forall skip,
  (forall before t r, s = before ++ t -> match_here t <> Some r) ->
  count_matches skip s = 0%N.
Proof.
  induction s as [|c rest IH]; intros skip Hnone; cbn [count_matches]; [done|].
  assert (Hrest : forall before t r, rest = before ++ t -> match_here t <> Some r).
  { intros before t r ->. by apply (Hnone (c :: before)). }
  destruct skip as [|k]; [|by apply IH].
  destruct (match_here (c :: rest)) as [r|] eqn:E; [|by apply IH].
  exfalso. by apply (Hnone [] (c :: rest) r).
Qed.

(** X12: a content in which neither the word function nor an arrow occurs
    has no estimated functions. *)
Theorem no_keyword_no_functions content :
  ~ occurs (of_string "function") content ->
  ~ occurs (of_string "=>") content ->
  functions (getFileMetrics content) = 0%N.
Proof.
  intros Hf Ha. cbn [getFileMetrics functions].
  apply count_matches_none. intros before t r -> Hm.
  destruct (match_here_occurs t r Hm) as [H|H].
  - apply Hf. by apply occurs_app_r.
  - apply Ha. by apply occurs_app_r.
Qed.

Lemma not_occurs_nil needle : needle <> [] -> ~ occurs needle [].
Proof.
  intros Hn (b & a & H). symmetry in H.
  apply app_eq_nil in H as [_ H]. apply app_eq_nil in H as [H _]. done.
Qed.

Lemma literal_app lit : forall s,
  literal lit (lit ++ s) = Some s.
Proof.
  induction lit as [|l lit IH]; intros s; cbn [app literal]; [done|].
  by rewrite N.eqb_refl.
Qed.

Lemma test_cons r c s : test r s = true -> test r (c :: s) = true.
Proof. intros H. cbn [test]. rewrite H. apply orb_true_r. Qed.

Lemma test_app_l r before s : test r s = true -> test r (before ++ s) = true.
Proof.
  intros H. induction before as [|c before IH]; [done|].
  cbn [app]. by apply test_cons.
Qed.

Lemma test_inv r s :
  test r s = true ->
  exists before t, s = before ++ t /\ matches_here r t = true.
Proof.
  induction s as [|c s IH]; cbn [test].
  - rewrite orb_false_r. intros H. by exists [], [].
  - intros [H|H]%orb_true_iff.
    + by exists [], (c :: s).
    + destruct (IH H) as (b & t & -> & Ht). by exists (c :: b), t.
Qed.

Lemma test_intro r before t :
  matches_here r t = true -> test r (before ++ t) = true.
Proof.
  intros H. apply test_app_l. destruct t; cbn [test]; by rewrite H.
Qed.

Lemma test_text_occurs needle s :
  test (text needle) s = true <-> occurs needle s.
Proof.
  split.
  - intros (b & t & -> & Ht)%test_inv. cbn [matches_here] in Ht.
    apply bool_decide_eq_true in Ht as [r Hr].
    apply literal_Some in Hr. subst t. by exists b, r.
  - intros (b & a & ->). apply test_intro. cbn [matches_here].
    apply bool_decide_eq_true. rewrite literal_app. by eexists.
Qed.

Lemma no_keyword_no_functions_witness :
  functions (getFileMetrics (of_string "var a=1;x")) = 0%N.
Proof.
  apply no_keyword_no_functions;
    intros H%test_text_occurs; vm_compute in H; discriminate H.
Defined.

(** *** The security matcher of the test setup *)

Lemma literal_app_r lit : forall s r after,
  literal lit s = Some r -> literal lit (s ++ after) = Some (r ++ after).
Proof.
  intros s r after ->%literal_Some. rewrite <-app_assoc. apply literal_app.
Qed.

Lemma skip_while_app p s after :
  skip_while p s <> [] -> skip_while p (s ++ after) = skip_while p s ++ after.
Proof.
  induction s as [|c s IH]; cbn [skip_while app]; [done|].
  destruct (p c); [apply IH|done].
Qed.

Lemma matches_here_app r s after :
  matches_here r s = true -> matches_here r (s ++ after) = true.
Proof.
  destruct r as [t|a b]; cbn [matches_here].
  - intros [x Hx]%bool_decide_eq_true. apply bool_decide_eq_true.
    rewrite (literal_app_r _ _ _ after Hx). by eexists.
  - destruct (literal a s) as [s1|] eqn:E1; [|done].
    rewrite (literal_app_r _ _ _ after E1).
    intros [x Hx]%bool_decide_eq_true. apply bool_decide_eq_true.
    destruct (skip_while is_space s1) as [|c w] eqn:Ew.
    + destruct b as [|l b]; [|done]. by eexists.
    + rewrite skip_while_app by (by rewrite Ew). rewrite Ew.
      rewrite (literal_app_r _ _ _ after Hx). by eexists.
Qed.

Lemma test_embedded r before s after :
  test r s = true -> test r (before ++ s ++ after) = true.
Proof.
  intros (b & t & -> & Ht)%test_inv.
  rewrite <-app_assoc, app_assoc. apply test_intro.
  by apply matches_here_app.
Qed.

Lemma toContainSecurityPattern_iff received :
  toContainSecurityPattern received = true
  <-> exists r, r ∈ securityPatterns /\ test r received = true.
Proof.
  unfold toContainSecurityPattern, foundPatterns.
  rewrite N.ltb_lt. split.
  - destruct (List.filter _ securityPatterns) as [|r l] eqn:E; [cbn; lia|].
    intros _. assert (Hin : In r (List.filter (fun r => test r received)
                                    securityPatterns)) by (rewrite E; by left).
    apply filter_In in Hin as [Hin Ht]. exists r.
    by rewrite list_elem_of_In.
  - intros (r & Hin & Ht).
    assert (Hf : In r (List.filter (fun r => test r received) securityPatterns)).
    { apply filter_In. by rewrite <-list_elem_of_In. }
    destruct (List.filter _ securityPatterns); [done|].
    cbn [List.length]. lia.
Qed.

(** X15: the matcher toContainSecurityPattern fails on the empty text, and
    once it passes on a text it passes on every text that contains it: each
    pattern found in the text is found in the larger one. *)
Theorem security_matcher_is_monotone received before after :
  toContainSecurityPattern [] = false
  /\ (forall r, In r (foundPatterns received) ->
      In r (foundPatterns (before ++ received ++ after)))
  /\ (toContainSecurityPattern received = true ->
      toContainSecurityPattern (before ++ received ++ after) = true).
Proof.
  split; [reflexivity|]. split.
  - unfold foundPatterns. intros r [Hin Ht]%filter_In.
    apply filter_In. split; [done|]. by apply test_embedded.
  - rewrite !toContainSecurityPattern_iff. intros (r & Hin & Ht).
    exists r. split; [done|]. by apply test_embedded.
Qed.

Lemma security_matcher_is_monotone_witness :
  toContainSecurityPattern
    (of_string "x=" ++ of_string "eval  (y)" ++ of_string ";") = true.
Proof.
  apply (proj2 (proj2 (security_matcher_is_monotone
                         (of_string "eval  (y)") (of_string "x=")
                         (of_string ";")))).
  reflexivity.
Defined.


(** *** createLargeJavaScriptFile *)

#[local] Open Scope N_scope.

Lemma repeat_string_succ s n :
  repeat_string s (N.succ n) = s ++ repeat_string s n.
Proof. unfold repeat_string. by rewrite N.iter_succ. Qed.

Lemma repeat_string_length s n :
  N.of_nat (List.length (repeat_string s n)) = n * N.of_nat (List.length s).
Proof.
  induction n as [|n IH] using N.peano_ind; [done|].
  rewrite repeat_string_succ, length_app, Nat2N.inj_add, IH. lia.
Qed.

Lemma repeat_string_Forall (P : code_unit -> Prop) s n :
  Forall P s -> Forall P (repeat_string s n).
Proof.
  intros Hs. induction n as [|n IH] using N.peano_ind; [constructor|].
  rewrite repeat_string_succ. by apply Forall_app.
Qed.

Lemma repeat_string_one_line s n :
  split_newline_length s = 1 -> split_newline_length (repeat_string s n) = 1.
Proof.
  intros Hs. induction n as [|n IH] using N.peano_ind; [done|].
  rewrite repeat_string_succ.
  pose proof (split_newline_length_app s (repeat_string s n)). lia.
Qed.

Lemma repeat_string_copies s n :
  repeat_string s n = List.concat (List.repeat s (N.to_nat n)).
Proof.
  induction n as [|n IH] using N.peano_ind; [done|].
  rewrite repeat_string_succ, N2Nat.inj_succ. cbn [List.repeat List.concat].
  by rewrite IH.
Qed.

(** X14: when createLargeJavaScriptFile returns for a whole number of
    megabytes, the text is a whole number of copies of [baseCode], one
    after the other: the least number of copies of its 41 characters that
    reach the size asked for, so the text is at least that long and less
    than one copy longer, within the longest string of the engine; it is
    one line, and its size in bytes is its length.  Otherwise the text
    would have been too long, and [repeat] has thrown. *)
Theorem large_file_has_the_size_asked_for maxStringLength sizeInMB :
  match createLargeJavaScriptFile maxStringLength sizeInMB with
  | Normal s =>
      let length := N.of_nat (List.length s) in
      (exists copies,
          s = List.concat (List.repeat baseCode (N.to_nat copies))
          /\ length = 41 * copies)
      /\ length = 41 * ceil_div (sizeInMB * 1024 * 1024) 41
      /\ sizeInMB * 1024 * 1024 <= length < sizeInMB * 1024 * 1024 + 41
      /\ length <= maxStringLength
      /\ size (getFileMetrics s) = length
      /\ lines (getFileMetrics s) = 1
  | Throw _ => maxStringLength < 41 * ceil_div (sizeInMB * 1024 * 1024) 41
  end.
Proof.
  unfold createLargeJavaScriptFile.
  change (N.of_nat (List.length baseCode)) with 41.
  set (target := sizeInMB * 1024 * 1024).
  destruct (maxStringLength <? 41 * ceil_div target 41) eqn:E.
  { by apply N.ltb_lt in E. }
  apply N.ltb_ge in E. cbn zeta.
  rewrite repeat_string_length. change (N.of_nat (List.length baseCode)) with 41.
  destruct (CliFacts.ceil_div_bounds target 41 ltac:(lia)) as [H1 H2].
  split.
  { exists (ceil_div target 41). split; [apply repeat_string_copies|lia]. }
  split; [lia|]. split; [lia|]. split; [lia|].
  cbn [getFileMetrics size lines]. split.
  - rewrite byteLength_ascii, repeat_string_length; [done|].
    apply repeat_string_Forall.
    unfold baseCode. repeat (apply Forall_cons; split; [reflexivity|]).
    constructor.
  - by apply repeat_string_one_line.
Qed.

(** *** Growing contents *)

Lemma byteLength_app_ge_l a b : byteLength a <= byteLength (a ++ b).
Proof.
  induction a as [| c | c d s IHs IHd] using list_pair_ind.
  - cbn. lia.
  - cbn [app]. rewrite !byteLength_cons. cbn [byteLength].
    destruct (c <? 0x80); [lia|]. destruct (c <? 0x800); [lia|].
    destruct (is_high_surrogate c); [|lia].
    destruct b as [|d b']; [lia|]. destruct (is_low_surrogate d); lia.
  - cbn [app] in *. rewrite (byteLength_cons c (d :: s ++ b)).
    rewrite (byteLength_cons c (d :: s)).
    destruct (c <? 0x80); [lia|]. destruct (c <? 0x800); [lia|].
    destruct (is_high_surrogate c); [|lia].
    destruct (is_low_surrogate d); lia.
Qed.

Lemma byteLength_app_ge_r a b : byteLength b <= byteLength (a ++ b).
Proof.
  induction a as [| c | c d s IHs IHd] using list_pair_ind.
  - cbn. lia.
  - cbn [app]. rewrite !byteLength_cons.
    destruct (c <? 0x80); [lia|]. destruct (c <? 0x800); [lia|].
    destruct (is_high_surrogate c); [|lia].
    destruct b as [|d b']; [cbn; lia|].
    destruct (is_low_surrogate d) eqn:Hd; [|lia].
    rewrite (byteLength_low_surrogate d b' Hd). lia.
  - cbn [app] in *. rewrite (byteLength_cons c (d :: s ++ b)).
    destruct (c <? 0x80); [lia|]. destruct (c <? 0x800); [lia|].
    destruct (is_high_surrogate c); [|lia].
    destruct (is_low_surrogate d); lia.
Qed.

(** X16: a content has at least the size, the lines and the estimated
    tokens of each of the two parts it is made of, and needs at least as
    many chunks of 200000 tokens as either part. *)
Theorem metrics_grow_with_the_content a b part :
  part = a \/ part = b ->
  size (getFileMetrics part) <= size (getFileMetrics (a ++ b))
  /\ lines (getFileMetrics part) <= lines (getFileMetrics (a ++ b))
  /\ estimatedTokens (getFileMetrics part)
     <= estimatedTokens (getFileMetrics (a ++ b))
  /\ ceil_div (estimatedTokens (getFileMetrics part)) 200000
     <= ceil_div (estimatedTokens (getFileMetrics (a ++ b))) 200000.
Proof.
  intros Hpart. cbn [getFileMetrics size lines estimatedTokens].
  assert (Hsize : byteLength part <= byteLength (a ++ b)).
  { destruct Hpart as [-> | ->];
      [apply byteLength_app_ge_l | apply byteLength_app_ge_r]. }
  assert (Hlines : split_newline_length part <= split_newline_length (a ++ b)).
  { pose proof (split_newline_length_app a b).
    pose proof (split_newline_length_bounds a).
    pose proof (split_newline_length_bounds b).
    destruct Hpart as [-> | ->]; lia. }
  split; [done|]. split; [done|].
  assert (Htokens : ceil_div (byteLength part) 4 <= ceil_div (byteLength (a ++ b)) 4)
    by (apply ceil_div_mono; [lia|done]).
  split; [done|]. apply ceil_div_mono; [lia|done].
Qed.

Lemma metrics_grow_with_the_content_witness :
  size (getFileMetrics (of_string "ab")) <= size (getFileMetrics (of_string "ab" ++ of_string "cde")).
Proof.
  apply (metrics_grow_with_the_content (of_string "ab") (of_string "cde")
           (of_string "ab")).
  by left.
Defined.

Lemma analyze_and_metrics_end_alike_witness :
  let path := of_string "bundle.js" in
  let env := CliFacts.single_file path (of_string "var a=1;x") (Throw []) in
  exited (handleAnalyze env (CliFacts.plain_options path))
  = exited (handleMetrics env path).
Proof.
  intros path env.
  exact (proj1 (analyze_and_metrics_end_alike env (CliFacts.plain_options path))).
Defined.

End MoreFacts.
